(** * Bot dashboard: derived views, poller and equity chart adapter

    A shallow embedding of the dashboard's logic:
    - [src/lib/format.ts]                       ([fmtUptime], [fmtUsd], [safeToFixed]);
    - the CLOB websocket status helper          ([formatSecsAgo], [getClobWsStatus]);
    - [src/hooks/use-bot-state.ts]              ([fetchState]);
    - [src/components/trades/trade-column.tsx]
      and the event section                     ([TradeColumn], [EventSection]);
    - the equity chart                          ([downsample], [EquityChart]);
    - the market window progress of the page    ([windowPct]).

    JavaScript numbers are modelled by [JsNum]: the finite values are exact
    rationals (rounding of doubles is not modelled), and [NaN] and the two
    infinities are kept apart because the code tests for them. *)

From Stdlib Require Import QArith Qround Qabs Lqa ZArith Lia Sorting Permutation.
From stdpp Require Import base list strings gmap pretty.

Set Default Proof Using "Type".
Local Open Scope Z_scope.

(** ** JavaScript numbers *)

Inductive JsNum : Type :=
| NaN
| NegInf
| Fin (q : Q)
| PosInf.

Definition isNaN (x : JsNum) : bool :=
  match x with NaN => true | _ => false end.

(** [Number.isFinite] on a value that already is a number. *)
Definition isFinite (x : JsNum) : bool :=
  match x with Fin _ => true | _ => false end.

(** [x < y]; every comparison with [NaN] is false. *)
Definition js_lt (x y : JsNum) : bool :=
  match x, y with
  | NaN, _ | _, NaN => false
  | NegInf, NegInf => false
  | NegInf, _ => true
  | _, NegInf => false
  | PosInf, _ => false
  | Fin _, PosInf => true
  | Fin a, Fin b => if Qlt_le_dec a b then true else false
  end.

(** [x <= y]. *)
Definition js_le (x y : JsNum) : bool :=
  match x, y with
  | NaN, _ | _, NaN => false
  | NegInf, _ => true
  | _, NegInf => false
  | _, PosInf => true
  | PosInf, _ => false
  | Fin a, Fin b => if Qlt_le_dec b a then false else true
  end.

Definition js_gt (x y : JsNum) : bool := js_lt y x.
Definition js_ge (x y : JsNum) : bool := js_le y x.

(** [x === y] on numbers: [NaN] differs from everything, itself included. *)
Definition js_eqb (x y : JsNum) : bool :=
  match x, y with
  | Fin a, Fin b => if Qeq_dec a b then true else false
  | PosInf, PosInf | NegInf, NegInf => true
  | _, _ => false
  end.

(** The numbers [JSON.parse] can produce: a finite value, or an infinity for
    a literal out of range; never [NaN]. *)
Definition json_number (x : JsNum) : Prop := x <> NaN.

Definition Qsign_pos (q : Q) : bool := if Qlt_le_dec 0 q then true else false.
Definition Qis_zero (q : Q) : bool := if Qeq_dec q 0 then true else false.

(** [x - y]. *)
Definition js_sub (x y : JsNum) : JsNum :=
  match x, y with
  | NaN, _ | _, NaN => NaN
  | PosInf, PosInf | NegInf, NegInf => NaN
  | PosInf, _ | _, NegInf => PosInf
  | NegInf, _ | _, PosInf => NegInf
  | Fin a, Fin b => Fin (a - b)
  end.

(** [x / y]; the sign of a zero is not modelled, a zero divisor counts as +0. *)
Definition js_div (x y : JsNum) : JsNum :=
  match x, y with
  | NaN, _ | _, NaN => NaN
  | Fin a, Fin b =>
      if Qis_zero b then
        if Qis_zero a then NaN else if Qsign_pos a then PosInf else NegInf
      else Fin (a / b)
  | Fin _, _ => Fin 0
  | PosInf, Fin b => if Qsign_pos b || Qis_zero b then PosInf else NegInf
  | NegInf, Fin b => if Qsign_pos b || Qis_zero b then NegInf else PosInf
  | _, _ => NaN
  end.

(** Truncation toward zero, as used by the remainder operator. *)
Definition Qtrunc (q : Q) : Z :=
  if Qlt_le_dec q 0 then Qceiling q else Qfloor q.

(** [x % y]: the remainder has the sign of the dividend. *)
Definition js_mod (x y : JsNum) : JsNum :=
  match x, y with
  | Fin a, Fin b =>
      if Qis_zero b then NaN else Fin (a - b * inject_Z (Qtrunc (a / b)))
  | Fin a, (PosInf | NegInf) => Fin a
  | _, _ => NaN
  end.

Definition Math_floor (x : JsNum) : JsNum :=
  match x with Fin q => Fin (inject_Z (Qfloor q)) | _ => x end.

(** The rational core of [Math.round]: halves round up. *)
Definition Qround_half_up (q : Q) : Z := Qfloor (q + (1 # 2)).

Definition Math_round (x : JsNum) : JsNum :=
  match x with Fin q => Fin (inject_Z (Qround_half_up q)) | _ => x end.

Definition Math_max (x y : JsNum) : JsNum :=
  if isNaN x || isNaN y then NaN else if js_lt x y then y else x.

Definition Math_min (x y : JsNum) : JsNum :=
  if isNaN x || isNaN y then NaN else if js_lt y x then y else x.

(** An argument declared [number | null | undefined]. *)
Inductive JsArg : Type :=
| ANull
| AUndefined
| ANum (n : JsNum).

(** [x == null] *)
Definition eq_null (x : JsArg) : bool :=
  match x with ANull | AUndefined => true | ANum _ => false end.

(** [typeof x !== "number"] *)
Definition typeof_not_number (x : JsArg) : bool :=
  match x with ANum _ => false | _ => true end.

(** [Number.isNaN(x)]: false for whatever is not a number. *)
Definition Number_isNaN (x : JsArg) : bool :=
  match x with ANum n => isNaN n | _ => false end.

(** The numeric value of such an argument in arithmetic and comparisons. *)
Definition ToNumber (x : JsArg) : JsNum :=
  match x with ANull => Fin 0 | AUndefined => NaN | ANum n => n end.

(** An abrupt completion of a call; a method call on [null] or [undefined]
    is a TypeError. *)
Inductive JsError : Type :=
| RangeError
| TypeError.

Inductive Completion (A : Type) : Type :=
| Normal (a : A)
| Throw (e : JsError).
Arguments Normal {A} a.
Arguments Throw {A} e.

(** The number-to-text conversions of the host.  What digits they print is
    left to the host; the code below only concatenates their results. *)
Class JsHost : Type := {
  (** [`${n}`] *)
  Number_toString : JsNum -> string;
  (** [n.toFixed(digits)] for [0 <= digits <= 100] *)
  Number_toFixed : JsNum -> Z -> string;
  (** [n.toLocaleString("en-US", {minimumFractionDigits: 2, maximumFractionDigits: 2})] *)
  Number_toLocaleString_en_US_2 : JsNum -> string
}.

(** A host for the examples: integers print in decimal, as JavaScript
    prints them below 1e21; any other finite value prints as a fraction,
    which is not JavaScript's notation, so the examples stay on integers. *)
Definition print_num (n : JsNum) : string :=
  match n with
  | NaN => "NaN"
  | NegInf => "-Infinity"
  | PosInf => "Infinity"
  | Fin q =>
      if Qeq_bool q (inject_Z (Qfloor q)) then pretty (Qfloor q)
      else pretty (Qnum q) +:+ "/" +:+ pretty (Zpos (Qden q))
  end%string.

Definition example_host : JsHost :=
  {| Number_toString := print_num;
     Number_toFixed := fun n _ => print_num n;
     Number_toLocaleString_en_US_2 := print_num |}.

(** [n.toFixed(digits)] throws a RangeError outside of 0..100. *)
Definition toFixed `{JsHost} (n : JsNum) (digits : Z) : Completion string :=
  if (0 <=? digits) && (digits <=? 100) then Normal (Number_toFixed n digits)
  else Throw RangeError.

(** ** Types of the snapshot (the fields the modelled code reads) *)

Record MarketInfo : Type := {
  title : string;
  slug : string;
  seconds_elapsed : JsNum
}.

Record EquityPoint : Type := {
  ts : JsNum;
  equity : JsNum
}.

Record TradeEvent : Type := {
  type : string;
  time : string;
  result : option string;
  reject_reason : option string
}.

Record AccountData : Type := {
  label : string;
  equity_history : list EquityPoint;
  trade_events : list TradeEvent
}.

Record BotState : Type := {
  clob_ws_connected : bool;
  clob_ws_seconds_since_update : option JsNum; (* number | null *)
  current_market : option MarketInfo;          (* MarketInfo | null *)
  accounts : gmap string AccountData
}.

(** ** src/config/constants.ts *)

(** The keys of [MODE_CONFIG], in the order [Object.entries] yields them. *)
Definition MODE_CONFIG : list string :=
  ["binance_only"; "chainlink_only"; "dual"]%string.

(** ** src/lib/format.ts *)

Section Format.
Context `{JsHost}.
Local Open Scope string_scope.

Definition fmtUptime (s : JsArg) : string :=
  if eq_null s || typeof_not_number s || Number_isNaN s
     || js_le (ToNumber s) (Fin 0)
  then "0s"
  else
    let s := ToNumber s in
    let days := Math_floor (js_div s (Fin 86400)) in
    let hrs := Math_floor (js_div (js_mod s (Fin 86400)) (Fin 3600)) in
    let mins := Math_floor (js_div (js_mod s (Fin 3600)) (Fin 60)) in
    let secs := Math_floor (js_mod s (Fin 60)) in
    if js_gt days (Fin 0) then
      Number_toString days +:+ "d " +:+ Number_toString hrs +:+ "h "
        +:+ Number_toString mins +:+ "m"
    else if js_gt hrs (Fin 0) then
      Number_toString hrs +:+ "h " +:+ Number_toString mins +:+ "m "
        +:+ Number_toString secs +:+ "s"
    else Number_toString mins +:+ "m " +:+ Number_toString secs +:+ "s".

Definition fmtUsd (n : JsArg) : Completion string :=
  if eq_null n || typeof_not_number n || Number_isNaN n then Normal "—"
  else
    match n with
    | ANum x => Normal ("$" +:+ Number_toLocaleString_en_US_2 x)
    | _ => Throw TypeError
    end.

(** Safe .toFixed: avoids crash when value is null/undefined/NaN. *)
Definition safeToFixed (value : JsArg) (digits : Z) : Completion string :=
  if eq_null value || typeof_not_number value || Number_isNaN value
  then Normal "—"
  else
    match value with
    | ANum x => toFixed x digits
    | _ => Throw TypeError
    end.

(** ** CLOB websocket status *)

Definition SUSPICIOUS_SECS : JsNum := Fin 999.
Definition MAX_REASONABLE_SECS : JsNum := Fin 600.

(** [typeof secs !== "number"] is false on every [JsNum] and is left out. *)
Definition formatSecsAgo (secs : JsNum) : string :=
  if negb (isFinite secs) || js_ge secs MAX_REASONABLE_SECS
     || js_ge secs SUSPICIOUS_SECS
  then "No recent update"
  else Number_toString (Math_round secs) +:+ "s ago".

Record ClobWsStatus : Type := {
  ok : bool;
  warning : bool;
  status : string;
  detail : string
}.

Definition getClobWsStatus (state : BotState) : ClobWsStatus :=
  let hasMarket := match current_market state with Some _ => true | None => false end in
  let connected := clob_ws_connected state in
  let secsSince := default (Fin 0) (clob_ws_seconds_since_update state) in
  if negb connected then
    {| ok := false; warning := false; status := "Disconnected"; detail := "Not connected" |}
  else if negb hasMarket then
    {| ok := true; warning := true; status := "Idle"; detail := "No active market" |}
  else
    let detail := formatSecsAgo secsSince in
    if js_gt secsSince (Fin 60) || js_ge secsSince SUSPICIOUS_SECS
       || negb (isFinite secsSince)
    then {| ok := false; warning := false; status := "Stale"; detail := detail |}
    else {| ok := true; warning := false; status := "Connected"; detail := detail |}.
End Format.

(** The status as the specification words it, on the field itself: "Stale"
    when [clob_ws_seconds_since_update] is greater than 60, at least 999,
    or not a finite number.  Compared with [getClobWsStatus] below. *)
Definition spec_clob_status (state : BotState) : string :=
  if negb (clob_ws_connected state) then "Disconnected"%string
  else match current_market state with
       | None => "Idle"%string
       | Some _ =>
           match clob_ws_seconds_since_update state with
           | Some (Fin q) =>
               if Qlt_le_dec 60 q then "Stale"%string
               else if Qlt_le_dec q 999 then "Connected"%string else "Stale"%string
           | _ => "Stale"%string  (* null, NaN, an infinity: not a finite number *)
           end
       end.

(** ** The market window progress computed by the page *)

Definition windowPct (mkt : option MarketInfo) : JsNum :=
  match mkt with
  | Some m => Math_min (Fin 1) (Math_max (Fin 0) (js_div (seconds_elapsed m) (Fin 300)))
  | None => Fin 0
  end.

(** ** src/hooks/use-bot-state.ts *)

(** What a [catch] clause can receive. *)
Inductive Thrown : Type :=
| ErrorObject (message : string)
| NotAnError.

(** The ways one round of [fetch] and [res.json()] can end. *)
Inductive FetchOutcome (A : Type) : Type :=
| FetchRejected (e : Thrown)
| Response (res_ok : bool) (res_status : nat) (json : Thrown + A).
Arguments FetchRejected {A} e.
Arguments Response {A} res_ok res_status json.

(** The three cells of the hook.  [A] is what [res.json()] may resolve to,
    [state] holds [None] for JavaScript's null. *)
Record HookState (A : Type) : Type := {
  state : option A;
  error : option string;
  lastFetch : Z
}.
Arguments state {A} _.
Arguments error {A} _.
Arguments lastFetch {A} _.

Section UseBotState.
Context {A : Type}.
Local Open Scope string_scope.

Definition catchClause (e : Thrown) (h : HookState A) : HookState A :=
  {| state := state h;
     error := Some (match e with ErrorObject m => m | NotAnError => "Connection failed" end);
     lastFetch := lastFetch h |}.

(** One call of [fetchState]; [now] is the reading of [Date.now()]. *)
Definition fetchState (o : FetchOutcome (option A)) (now : Z) (h : HookState A)
  : HookState A :=
  match o with
  | FetchRejected e => catchClause e h
  | Response res_ok res_status json =>
      if negb res_ok then catchClause (ErrorObject ("HTTP " +:+ pretty res_status)) h
      else match json with
           | inl e => catchClause e h
           | inr data => {| state := data; error := None; lastFetch := now |}
           end
  end.

Definition useBotState_init : HookState A :=
  {| state := None; error := None; lastFetch := 0 |}.

(** The payload of a successful round: an OK response whose body parses. *)
Definition parsed_payload (o : FetchOutcome (option A)) : option (option A) :=
  match o with
  | Response true _ (inr data) => Some data
  | _ => None
  end.

(** A run of polls, each with its outcome and its clock reading. *)
Definition poll_all (rounds : list (FetchOutcome (option A) * Z)) (h : HookState A)
  : HookState A :=
  foldl (fun h '(o, now) => fetchState o now h) h rounds.

(** The payload and the time of the last successful round of a run. *)
Fixpoint last_success (rounds : list (FetchOutcome (option A) * Z))
  : option (option A * Z) :=
  match rounds with
  | [] => None
  | (o, now) :: rounds' =>
      match last_success rounds' with
      | Some r => Some r
      | None => (fun data => (data, now)) <$> parsed_payload o
      end
  end.
End UseBotState.

(** ** Array.prototype.sort

    ECMAScript requires the sort to be stable, so for a consistent
    comparator the result is fixed whatever algorithm the engine runs; it
    is computed here by a stable insertion sort. *)

Section ArraySort.
Context {T : Type} (comparefn : T -> T -> JsNum).

(** A comparator result of [NaN] counts as [+0]. *)
Definition SortCompare (x y : T) : JsNum :=
  let v := comparefn x y in if isNaN v then Fin 0 else v.

(** [x] stays in front of [y] unless the comparator says [x > y]. *)
Definition stays_before (x y : T) : bool :=
  negb (js_gt (SortCompare x y) (Fin 0)).

Fixpoint sort_insert (x : T) (l : list T) : list T :=
  match l with
  | [] => [x]
  | y :: l' => if stays_before x y then x :: y :: l' else y :: sort_insert x l'
  end.

Definition Array_sort (l : list T) : list T := foldr sort_insert [] l.
End ArraySort.

(** ** Trade column and event sections *)

(** [s.includes(sub)] *)
Fixpoint String_includes (s sub : string) : bool :=
  String.prefix sub s
  || match s with
     | EmptyString => false
     | String _ s' => String_includes s' sub
     end.

(** Modelled from the spec: [String.prototype.localeCompare] is a builtin of
    the host; the spec describes the order it gives to the time strings as
    lexicographic, so it is the lexicographic comparison of the strings. *)
Definition localeCompare (s t : string) : JsNum :=
  match String.compare s t with
  | Lt => Fin (-1)
  | Eq => Fin 0
  | Gt => Fin 1
  end.

(** [s || ""] *)
Definition or_empty (s : string) : string :=
  if String.eqb s "" then ""%string else s.

Record SectionView : Type := {
  sv_title : string;
  sv_count : nat;
  sv_preview : list TradeEvent;   (* always rendered *)
  sv_rest : list TradeEvent;      (* [sorted.slice(3)] *)
  sv_toggle : bool;               (* the "View all" button is there *)
  sv_rest_rendered : list TradeEvent
}.

Definition by_time_desc (a b : TradeEvent) : JsNum :=
  localeCompare (or_empty (time b)) (or_empty (time a)).

(** [None] stands for the [null] the component returns when [count] is 0. *)
Definition EventSection (title : string) (count : nat) (events : list TradeEvent)
    (expanded : bool) : option SectionView :=
  if Nat.eqb count 0 then None
  else
    let sorted := Array_sort by_time_desc events in
    let preview := take 3 sorted in
    let rest := drop 3 sorted in
    Some {| sv_title := title;
            sv_count := count;
            sv_preview := preview;
            sv_rest := rest;
            sv_toggle := Nat.ltb 0 (length rest);
            sv_rest_rendered := if Nat.ltb 0 (length rest) && expanded then rest else [] |}.

Section TradeColumn.
Local Open Scope string_scope.

Definition is_win (e : TradeEvent) : bool :=
  String.eqb (type e) "RESOLUTION"
  && match result e with Some r => String.eqb r "WIN" | None => false end.

Definition is_loss (e : TradeEvent) : bool :=
  String.eqb (type e) "RESOLUTION"
  && match result e with Some r => String.eqb r "LOSS" | None => false end.

Definition is_entry (e : TradeEvent) : bool := String.eqb (type e) "ENTRY".

Definition is_near_miss (e : TradeEvent) : bool := String.eqb (type e) "NEAR_MISS".

(** [!(acct.label === "Dual (Both)" && e.reject_reason?.includes("disagrees"))] *)
Definition not_dual_disagreement (acct : AccountData) (e : TradeEvent) : bool :=
  negb (String.eqb (label acct) "Dual (Both)"
        && match reject_reason e with
           | Some r => String_includes r "disagrees"
           | None => false
           end).

Definition wins_of (acct : AccountData) : list TradeEvent :=
  List.filter is_win (trade_events acct).
Definition losses_of (acct : AccountData) : list TradeEvent :=
  List.filter is_loss (trade_events acct).
Definition entries_of (acct : AccountData) : list TradeEvent :=
  List.filter is_entry (trade_events acct).
Definition nearMisses_of (acct : AccountData) : list TradeEvent :=
  List.filter (not_dual_disagreement acct) (List.filter is_near_miss (trade_events acct)).

Record TradeColumnView : Type := {
  wins_section : option SectionView;
  losses_section : option SectionView;
  entries_section : option SectionView;
  near_misses_section : option SectionView
}.

(** [expandedSection] is the component's state cell. *)
Definition TradeColumn (acct : AccountData) (expandedSection : option string)
  : TradeColumnView :=
  let wins := wins_of acct in
  let losses := losses_of acct in
  let entries := entries_of acct in
  let nearMisses := nearMisses_of acct in
  let is_expanded name :=
    match expandedSection with Some s => String.eqb s name | None => false end in
  {| wins_section := EventSection "✅ Wins" (length wins) wins (is_expanded "wins");
     losses_section := EventSection "❌ Losses" (length losses) losses (is_expanded "losses");
     entries_section :=
       EventSection "📈 Entries" (length entries) entries (is_expanded "entries");
     near_misses_section :=
       EventSection "⚠️ Near Misses" (length nearMisses) nearMisses
         (is_expanded "near_misses") |}.
End TradeColumn.




(** ** Equity chart *)

Definition MAX_CHART_POINTS : nat := Z.to_nat 8000.

Section Downsample.
Context {T : Type} `{!Inhabited T}.

(** The index read at iteration [i].  [step] is only consulted when
    [maxPoints >= 2]: with one point the single iteration is the last. *)
Definition downsample_idx (len maxPoints i : nat) : nat :=
  let step : Q :=
    ((inject_Z (Z.of_nat len) - 1) / (inject_Z (Z.of_nat maxPoints) - 1))%Q in
  if Nat.eqb i (maxPoints - 1) then (len - 1)%nat
  else Z.to_nat (Qround_half_up (inject_Z (Z.of_nat i) * step)).

(** The [for] loop, [remaining] iterations before [i] reaches [maxPoints].
    A read outside of the array, which gives [undefined] in JavaScript,
    gives the inhabitant of [T]. *)
Fixpoint downsample_loop (data : list T) (maxPoints remaining i : nat)
    (out : list T) : list T :=
  match remaining with
  | O => out
  | S remaining' =>
      let idx := downsample_idx (length data) maxPoints i in
      downsample_loop data maxPoints remaining' (S i) (out ++ [data !!! idx])
  end.

Definition downsample (data : list T) (maxPoints : nat) : list T :=
  if Nat.leb (length data) maxPoints then data
  else downsample_loop data maxPoints maxPoints 0%nat [].
End Downsample.

Record Point : Type := {
  p_time : JsNum;
  p_value : JsNum
}.

#[export] Instance Point_inhabited : Inhabited Point :=
  populate {| p_time := NaN; p_value := NaN |}.

Definition to_point (pt : EquityPoint) : Point :=
  {| p_time := ts pt; p_value := equity pt |}.

Definition by_time (a b : Point) : JsNum := js_sub (p_time a) (p_time b).

(** The array handed to [series.setData], current version. *)
Definition series_data (history : list EquityPoint) : list Point :=
  downsample (Array_sort by_time (to_point <$> history)) MAX_CHART_POINTS.

(** The same before downsampling was introduced. *)
Definition series_data_v1 (history : list EquityPoint) : list Point :=
  Array_sort by_time (to_point <$> history).

Inductive IChartApi : Type := TheChart.

(** Calls made on the chart and its series. *)
Inductive ChartCall : Type :=
| AddSeries (series : nat) (series_title : string)
| SetData (series : nat) (data : list Point)
| SetVisibleRange (from to : Z)
| FitContent.

(** The refs of the component. *)
Record ChartRefs : Type := {
  chartRef : option IChartApi;
  seriesRefs : gmap string nat;
  initialRangeSet : bool
}.

Definition EquityChart_init : ChartRefs :=
  {| chartRef := None; seriesRefs := ∅; initialRangeSet := false |}.

(** The mount effect: creates the chart and one series per configured mode
    that has an account at that time.  [container] tells whether
    [chartContainerRef.current] is set. *)
Definition mountEffect (container : bool) (accts : gmap string AccountData)
    (r : ChartRefs) : ChartRefs * list ChartCall :=
  if negb container then (r, [])
  else
    let '(newSeries, calls) :=
      foldl (fun '(newSeries, calls) mode =>
               match accts !! mode with
               | None => (newSeries, calls)
               | Some acct =>
                   let series := size newSeries in
                   (<[mode := series]> newSeries, calls ++ [AddSeries series (label acct)])
               end)
            ((∅ : gmap string nat), []) MODE_CONFIG in
    ({| chartRef := Some TheChart; seriesRefs := newSeries; initialRangeSet := false |},
     calls).

(** The loop of the update effect: [hasData] and the [setData] calls. *)
Definition update_loop (data_of : list EquityPoint -> list Point)
    (accts : gmap string AccountData) (series_of : gmap string nat)
    : bool * list ChartCall :=
  foldl (fun '(hasData, calls) mode =>
           match accts !! mode, series_of !! mode with
           | Some acct, Some series =>
               let history := equity_history acct in
               if Nat.eqb (length history) 0 then (hasData, calls)
               else (true, calls ++ [SetData series (data_of history)])
           | _, _ => (hasData, calls)
           end)
        (false, []) MODE_CONFIG.

(** The update effect, run after every render with new [accounts]. *)
Definition updateEffect (accts : gmap string AccountData) (r : ChartRefs)
    : ChartRefs * list ChartCall :=
  match chartRef r with
  | None => (r, [])
  | Some _ =>
      let '(hasData, calls) := update_loop series_data accts (seriesRefs r) in
      if hasData && negb (initialRangeSet r) then
        ({| chartRef := chartRef r; seriesRefs := seriesRefs r; initialRangeSet := true |},
         calls ++ [FitContent])
      else (r, calls)
  end.

(** What the earlier version reads from its surroundings when it sets the
    range: two readings of [Date.now()] and whether [setVisibleRange] throws. *)
Record RangeEnv : Type := {
  now_first : Z;
  now_second : Z;
  setVisibleRange_throws : bool
}.

(** The update effect of the earlier version: the last three hours, with
    [fitContent] as the fallback. *)
Definition updateEffect_v1 (env : RangeEnv) (accts : gmap string AccountData)
    (r : ChartRefs) : ChartRefs * list ChartCall :=
  match chartRef r with
  | None => (r, [])
  | Some _ =>
      let '(hasData, calls) := update_loop series_data_v1 accts (seriesRefs r) in
      if hasData && negb (initialRangeSet r) then
        let threeHoursAgo := now_first env / 1000 - 3 * 3600 in
        let now := now_second env / 1000 in
        ({| chartRef := chartRef r; seriesRefs := seriesRefs r; initialRangeSet := true |},
         calls ++ SetVisibleRange threeHoursAgo now
               :: (if setVisibleRange_throws env then [FitContent] else []))
      else (r, calls)
  end.

(** A run of update effects, one per snapshot, with the calls of each. *)
Fixpoint run_updates (snaps : list (gmap string AccountData)) (r : ChartRefs)
    : ChartRefs * list (list ChartCall) :=
  match snaps with
  | [] => (r, [])
  | accts :: snaps' =>
      let '(r1, calls) := updateEffect accts r in
      let '(r2, rest) := run_updates snaps' r1 in
      (r2, calls :: rest)
  end.

Fixpoint run_updates_v1 (snaps : list (RangeEnv * gmap string AccountData))
    (r : ChartRefs) : ChartRefs * list (list ChartCall) :=
  match snaps with
  | [] => (r, [])
  | (env, accts) :: snaps' =>
      let '(r1, calls) := updateEffect_v1 env accts r in
      let '(r2, rest) := run_updates_v1 snaps' r1 in
      (r2, calls :: rest)
  end.

Definition is_range_call (c : ChartCall) : bool :=
  match c with SetVisibleRange _ _ | FitContent => true | _ => false end.

(** The calls of a trace that set the visible time range. *)
Definition range_calls (calls : list ChartCall) : list ChartCall :=
  List.filter is_range_call calls.

(** Some configured mode has both a series and an account with history:
    the value of [hasData] at the end of the loop. *)
Definition has_charted_data (series_of : gmap string nat)
    (accts : gmap string AccountData) : bool :=
  existsb (fun mode =>
             match accts !! mode, series_of !! mode with
             | Some acct, Some _ => negb (Nat.eqb (length (equity_history acct)) 0)
             | _, _ => false
             end) MODE_CONFIG.

(** The [setData] call the loop makes for [mode], if any. *)
Definition setData_of (data_of : list EquityPoint -> list Point)
    (accts : gmap string AccountData) (series_of : gmap string nat)
    (mode : string) : option ChartCall :=
  match accts !! mode, series_of !! mode with
  | Some acct, Some series =>
      if Nat.eqb (length (equity_history acct)) 0 then None
      else Some (SetData series (data_of (equity_history acct)))
  | _, _ => None
  end.

(** Position of the first element that satisfies [f]. *)
Fixpoint first_index {A} (f : A -> bool) (l : list A) : option nat :=
  match l with
  | [] => None
  | x :: l' => if f x then Some 0%nat else S <$> first_index f l'
  end.

(** Some account of the snapshot, whatever its key, has history. *)
Definition some_account_has_history (accts : gmap string AccountData) : bool :=
  bool_decide (map_Exists (fun _ acct => equity_history acct <> []) accts).

(** ** Further code of the dashboard *)

(** [Math.abs] *)
Definition Math_abs (x : JsNum) : JsNum :=
  match x with
  | NaN => NaN
  | Fin q => Fin (Qabs q)
  | _ => PosInf
  end.

(** [x || 0] on a [number | null | undefined]: 0 and NaN are falsy too. *)
Definition or_zero (x : JsArg) : JsNum :=
  match x with
  | ANum (Fin q) => if Qis_zero q then Fin 0 else Fin q
  | ANum NaN => Fin 0
  | ANum n => n
  | _ => Fin 0
  end.

(** Truthiness of a [string | null | undefined]. *)
Definition truthy_string (s : option string) : bool :=
  match s with
  | Some s => negb (String.eqb s "")
  | None => false
  end.

(** *** src/lib/format.ts, [getMoveValueColor] *)

Definition getMoveValueColor (absMove minThreshold fullThreshold : JsNum) : string :=
  if js_lt absMove minThreshold then "text-gray-400"%string
  else if js_lt absMove fullThreshold then "text-green-500"%string
  else "text-emerald-400 font-semibold"%string.

(** *** The earlier versions of the helpers *)

Section EarlierHelpers.
Context `{JsHost}.
Local Open Scope string_scope.

(** [fmtUptime(s: number)] with [s <= 0] as its only guard. *)
Definition fmtUptime_v1 (s : JsNum) : string :=
  if js_le s (Fin 0) then "0s"
  else
    let days := Math_floor (js_div s (Fin 86400)) in
    let hrs := Math_floor (js_div (js_mod s (Fin 86400)) (Fin 3600)) in
    let mins := Math_floor (js_div (js_mod s (Fin 3600)) (Fin 60)) in
    let secs := Math_floor (js_mod s (Fin 60)) in
    if js_gt days (Fin 0) then
      Number_toString days +:+ "d " +:+ Number_toString hrs +:+ "h "
        +:+ Number_toString mins +:+ "m"
    else if js_gt hrs (Fin 0) then
      Number_toString hrs +:+ "h " +:+ Number_toString mins +:+ "m "
        +:+ Number_toString secs +:+ "s"
    else Number_toString mins +:+ "m " +:+ Number_toString secs +:+ "s".

(** [fmtUsd] with [n == null] as its only guard. *)
Definition fmtUsd_v1 (n : JsArg) : Completion string :=
  if eq_null n then Normal "—"
  else
    match n with
    | ANum x => Normal ("$" +:+ Number_toLocaleString_en_US_2 x)
    | _ => Throw TypeError
    end.

(** [getClobWsStatus] before the sentinel handling: the age is read as it
    is, and formatted with [toFixed(0)], a method call that throws on null. *)
Definition getClobWsStatus_v1 (state : BotState) : Completion ClobWsStatus :=
  let hasMarket := match current_market state with Some _ => true | None => false end in
  let connected := clob_ws_connected state in
  let secsSince := clob_ws_seconds_since_update state in
  let age_text : Completion string :=
    match secsSince with
    | Some n =>
        match toFixed n 0 with
        | Normal s => Normal (s +:+ "s ago")
        | Throw e => Throw e
        end
    | None => Throw TypeError
    end in
  if negb connected then
    Normal {| ok := false; warning := false; status := "Disconnected";
              detail := "Not connected" |}
  else if negb hasMarket then
    Normal {| ok := true; warning := true; status := "Idle"; detail := "No active market" |}
  else if js_gt (ToNumber (from_option ANum ANull secsSince)) (Fin 60) then
    match age_text with
    | Normal d => Normal {| ok := false; warning := false; status := "Stale"; detail := d |}
    | Throw e => Throw e
    end
  else
    match age_text with
    | Normal d => Normal {| ok := true; warning := false; status := "Connected"; detail := d |}
    | Throw e => Throw e
    end.
End EarlierHelpers.

(** *** src/components/ui/health-card.tsx *)

Record HealthCardView : Type := {
  hc_label : string;
  hc_dotColor : string;
  hc_textColor : string;
  hc_status : string;
  hc_detail : string
}.

(** [warning] is an optional prop: left out, it is falsy. *)
Definition HealthCard (label : string) (ok : bool) (status detail : string)
    (warning : option bool) : HealthCardView :=
  let warning := default false warning in
  let dotColor := if warning then "yellow" else if ok then "green" else "red" in
  let textColor :=
    if warning then "text-yellow-400" else if ok then "text-green-400" else "text-red-400" in
  {| hc_label := label; hc_dotColor := dotColor; hc_textColor := textColor;
     hc_status := status; hc_detail := detail |}%string.

(** *** src/components/dashboard/system-health.tsx *)

(** The fields of the state that [SystemHealth] reads besides those of the
    CLOB status. *)
Record HealthFields : Type := {
  rtds_connected : bool;
  rtds_stale : bool;
  rtds_seconds_since_update : option JsNum; (* number | null *)
  btc_price : option JsNum;                 (* number | null *)
  bot_paused : bool
}.

Section SystemHealth.
Context `{JsHost}.
Local Open Scope string_scope.

(** The five cards, in order; a throwing [safeToFixed] would abort the
    render. *)
Definition SystemHealth (state : BotState) (more : HealthFields)
    (market : option MarketInfo) : Completion (list HealthCardView) :=
  let clobStatus := getClobWsStatus state in
  let rtds_ok := rtds_connected more && negb (rtds_stale more) in
  let rtds_detail : Completion string :=
    match rtds_seconds_since_update more with
    | Some n =>
        match safeToFixed (ANum n) 0 with
        | Normal s => Normal (s +:+ "s ago")
        | Throw e => Throw e
        end
    | None => Normal "—"
    end in
  let has_price := match btc_price more with Some _ => true | None => false end in
  let has_slug := truthy_string (slug <$> market) in
  match rtds_detail with
  | Throw e => Throw e
  | Normal rtds_detail =>
      Normal
        [ HealthCard "RTDS WebSocket" rtds_ok
            (if rtds_ok then "Live"
             else if rtds_connected more then "STALE" else "Disconnected")
            rtds_detail None;
          HealthCard "Binance API" has_price
            (if has_price then "Receiving" else "No data") "BTC/USDT" None;
          HealthCard "CLOB WebSocket" (ok clobStatus) (status clobStatus)
            (detail clobStatus) (Some (warning clobStatus));
          HealthCard "Bot Status" (negb (bot_paused more))
            (if bot_paused more then "PAUSED" else "Trading")
            (if bot_paused more then "Waiting for APIs" else "All systems go") None;
          HealthCard "Market" has_slug
            (if has_slug then "Found" else "Searching...") "Gamma API" None ]
  end.
End SystemHealth.

(** *** The logs: which entries are shown, in which order *)

(** [entries.slice().reverse().slice(0, 20)] of [DecisionLog]. *)
Definition DecisionLog_displayEntries {A} (entries : list A) : list A :=
  take 20 (reverse entries).

(** [l.slice(-n)]: the last [n] elements. *)
Definition slice_last {A} (n : nat) (l : list A) : list A :=
  drop (length l - n) l.

(** [ResolutionTimeoutBanner]: nothing without notifications, otherwise
    [notifications.slice(-10).reverse()]. *)
Definition ResolutionTimeoutBanner {A} (notifications : list A) : option (list A) :=
  if Nat.eqb (length notifications) 0 then None
  else Some (reverse (slice_last 10 notifications)).

(** *** src/components/trades/trade-column.tsx, [toggleSection] *)

(** The new value of [expandedSection]. *)
Definition toggleSection (expandedSection : option string) (section : string)
    : option string :=
  if match expandedSection with Some s => String.eqb s section | None => false end
  then None else Some section.

(** *** The page *)

Module DeferredResolution.
Record t : Type := {
  slug : string;
  mode : string;
  strategy : string;
  side : string;
  entry_price : JsNum;
  size_usdc : JsNum;
  queued_at : JsNum;
  check_after : JsNum
}.
End DeferredResolution.

(** The props of one [TradeColumn], as the page builds them. *)
Record TradeColumnProps : Type := {
  tc_mode : string;
  tc_acct : AccountData;
  tc_deferred : list DeferredResolution.t
}.

(** [Object.entries(MODE_CONFIG).map(...)] of the trade log: a column per
    configured mode that has an account, with the deferred resolutions of
    that mode. *)
Definition Dashboard_tradeColumns (accts : gmap string AccountData)
    (deferred_resolutions : list DeferredResolution.t) : list TradeColumnProps :=
  omap (fun mode =>
          match accts !! mode with
          | None => None
          | Some acct =>
              Some {| tc_mode := mode; tc_acct := acct;
                      tc_deferred :=
                        List.filter
                          (fun d => String.eqb (DeferredResolution.mode d) mode)
                          deferred_resolutions |}
          end) MODE_CONFIG.

(** [AccountPerformance]: a card per configured mode that has an account;
    what a card prints is a function of the account and is left out. *)
Definition AccountPerformance_cards (accts : gmap string AccountData)
    : list (string * AccountData) :=
  omap (fun mode => (fun acct => (mode, acct)) <$> accts !! mode) MODE_CONFIG.

(** [secsToCheck] of a waiting resolution; [now] is [Date.now()]. *)
Definition secsToCheck (d : DeferredResolution.t) (now : JsNum) : JsNum :=
  Math_max (Fin 0) (js_sub (DeferredResolution.check_after d) (js_div now (Fin 1000))).

(** [THRESHOLD] of the constants the page of the move cards was written
    against ("Dual ±$26"). *)
Definition THRESHOLD : JsNum := Fin 26.

(** [Math.abs((state.btc_price || 0) - (state.chainlink_btc_price || 0))] *)
Definition spread (btc_price chainlink_btc_price : option JsNum) : JsNum :=
  Math_abs (js_sub (or_zero (from_option ANum ANull btc_price))
                   (or_zero (from_option ANum ANull chainlink_btc_price))).

Record MetricCardProps : Type := {
  mc_icon : string;
  mc_label : string;
  mc_value : string;
  mc_valueColor : string
}.

Section MoveCards.
Context `{JsHost}.
Local Open Scope string_scope.

(** The "BN Move" and "CL Move" cards: [move] is [state.btc_move || 0] or
    [state.chainlink_btc_move || 0]. *)
Definition moveCard (label : string) (move : JsNum) : Completion MetricCardProps :=
  match toFixed move 0 with
  | Throw e => Throw e
  | Normal digits =>
      Normal {| mc_icon := if js_ge (Math_abs move) THRESHOLD then "✅" else "❌";
                mc_label := label;
                mc_value := "$" +:+ (if js_ge move (Fin 0) then "+" else "") +:+ digits;
                mc_valueColor :=
                  if js_ge (Math_abs move) THRESHOLD then "text-green-400"
                  else "text-gray-400" |}
  end.

Definition dualCard (btcMove clMove : JsNum) : MetricCardProps :=
  let both := js_ge (Math_abs btcMove) THRESHOLD && js_ge (Math_abs clMove) THRESHOLD in
  {| mc_icon := if both then "✅" else "⏳";
     mc_label := "Dual ±$26";
     mc_value := if both then "YES" else "No";
     mc_valueColor := if both then "text-green-400" else "text-yellow-400" |}.

(** The three move cards of the page, from the two fields of the state. *)
Definition Dashboard_moveCards (btc_move chainlink_btc_move : JsNum)
    : Completion (list MetricCardProps) :=
  let btcMove := or_zero (ANum btc_move) in
  let clMove := or_zero (ANum chainlink_btc_move) in
  match moveCard "BN Move" btcMove, moveCard "CL Move" clMove with
  | Normal bn, Normal cl => Normal [bn; cl; dualCard btcMove clMove]
  | Throw e, _ | _, Throw e => Throw e
  end.
End MoveCards.

(** *** What the page shows of the poller *)

Inductive Screen (A : Type) : Type :=
| LoadingState (message : string)
| DashboardView (snapshot : A) (hasError : bool).
Arguments LoadingState {A} message.
Arguments DashboardView {A} snapshot hasError.

(** The branch of [Dashboard] on [state], the text of [LoadingState] and the
    [hasError] of the header. *)
Definition Dashboard_screen {A} (h : HookState A) : Screen A :=
  match state h with
  | None =>
      LoadingState
        (if truthy_string (error h)
         then "Connection error: " +:+ default "" (error h)
         else "Connecting to bot...")%string
  | Some snapshot => DashboardView snapshot (truthy_string (error h))
  end.

(** The whole update effect on a chart that was just created for the same
    accounts: what the first render does. *)
Definition EquityChart_firstRender (accts : gmap string AccountData)
    : ChartRefs * list ChartCall :=
  let '(r1, calls1) := mountEffect true accts EquityChart_init in
  let '(r2, calls2) := updateEffect accts r1 in
  (r2, calls1 ++ calls2).

(** * Properties *)

(** ** downsample *)

Section DownsampleFacts.
Context {T : Type} `{!Inhabited T}.
Implicit Types (data out : list T) (maxPoints len i : nat).

Lemma downsample_loop_unfold data maxPoints remaining i out :
  downsample_loop data maxPoints remaining i out =
  out ++ ((fun j => data !!! downsample_idx (length data) maxPoints j)
            <$> seq i remaining).
Proof.
  revert i out. induction remaining as [|k IH]; intros i out; simpl.
  - by rewrite app_nil_r.
  - rewrite IH, <- app_assoc. done.
Qed.

Lemma downsample_short data maxPoints :
  (length data <= maxPoints)%nat -> downsample data maxPoints = data.
Proof.
  intros Hle. unfold downsample.
  by destruct (Nat.leb_spec (length data) maxPoints); [|lia].
Qed.

Lemma downsample_long data maxPoints :
  (maxPoints < length data)%nat ->
  downsample data maxPoints =
  (fun j => data !!! downsample_idx (length data) maxPoints j) <$> seq 0 maxPoints.
Proof.
  intros Hlt. unfold downsample.
  destruct (Nat.leb_spec (length data) maxPoints); [lia|].
  by rewrite downsample_loop_unfold.
Qed.

Lemma downsample_length_le data maxPoints :
  (length (downsample data maxPoints) <= maxPoints)%nat.
Proof.
  destruct (Nat.le_gt_cases (length data) maxPoints) as [Hle|Hlt].
  - by rewrite downsample_short.
  - rewrite downsample_long by done. by rewrite length_fmap, length_seq.
Qed.
End DownsampleFacts.

(** *** The indices read by the loop *)

Lemma Qfloor_div (a d : Z) : 0 < d -> Qfloor (inject_Z a / inject_Z d) = a / d.
Proof.
  intros Hd. destruct d as [|p|p]; try lia.
  unfold Qdiv, Qinv, Qmult, inject_Z, Qfloor. simpl.
  by rewrite Z.mul_1_r.
Qed.

Lemma Qround_half_up_scaled (i n m : Z) :
  0 < m ->
  Qround_half_up (inject_Z i * (inject_Z n / inject_Z m)) = (2 * i * n + m) / (2 * m).
Proof.
  intros Hm. unfold Qround_half_up.
  rewrite <- Qfloor_div by lia.
  apply Qfloor_comp.
  rewrite !inject_Z_plus, !inject_Z_mult.
  assert (~ inject_Z m == 0)%Q.
  { intros E. unfold Qeq in E. simpl in E. lia. }
  field. auto.
Qed.

Lemma downsample_idx_last (len maxPoints : nat) :
  downsample_idx len maxPoints (maxPoints - 1) = (len - 1)%nat.
Proof. unfold downsample_idx. by rewrite Nat.eqb_refl. Qed.

Lemma downsample_idx_inner (len maxPoints i : nat) :
  (2 <= maxPoints)%nat -> (1 <= len)%nat -> (i < maxPoints - 1)%nat ->
  Z.of_nat (downsample_idx len maxPoints i) =
  (2 * Z.of_nat i * (Z.of_nat len - 1) + (Z.of_nat maxPoints - 1))
  / (2 * (Z.of_nat maxPoints - 1)).
Proof.
  intros Hm Hlen Hi. unfold downsample_idx.
  destruct (Nat.eqb_spec i (maxPoints - 1)) as [->|_]; [lia|].
  change 1%Q with (inject_Z 1). unfold Qminus.
  rewrite <- !inject_Z_opp, <- !inject_Z_plus.
  rewrite Qround_half_up_scaled by lia.
  rewrite Z2Nat.id; [done|].
  apply Z.div_pos; nia.
Qed.

(** Between two iterations the rounded index advances by at least the
    number of iterations, because [step >= 1]. *)
Lemma scaled_index_advances (N M i j : Z) :
  0 < M -> M <= N -> 0 <= i <= j ->
  (2 * i * N + M) / (2 * M) + (j - i) <= (2 * j * N + M) / (2 * M).
Proof.
  intros HM HN Hij.
  rewrite <- Z.div_add by lia.
  apply Z.div_le_mono; [lia|nia].
Qed.

Lemma scaled_index_below (N M i : Z) :
  0 < M -> M < N -> 0 <= i < M ->
  (2 * i * N + M) / (2 * M) < N.
Proof.
  intros HM HN Hi.
  apply Z.div_lt_upper_bound; [lia|nia].
Qed.

Lemma downsample_idx_0 (len maxPoints : nat) :
  (2 <= maxPoints)%nat -> (1 <= len)%nat -> downsample_idx len maxPoints 0 = 0%nat.
Proof.
  intros Hm Hlen.
  apply Nat2Z.inj. rewrite downsample_idx_inner by lia.
  simpl. apply Z.div_small. lia.
Qed.

Lemma downsample_idx_lt_len (len maxPoints i : nat) :
  (2 <= maxPoints)%nat -> (maxPoints < len)%nat -> (i < maxPoints)%nat ->
  (downsample_idx len maxPoints i < len)%nat.
Proof.
  intros Hm Hlen Hi.
  destruct (decide (i = maxPoints - 1)%nat) as [->|Hne].
  - rewrite downsample_idx_last. lia.
  - apply Nat2Z.inj_lt. rewrite downsample_idx_inner by lia.
    pose proof (scaled_index_below (Z.of_nat len - 1) (Z.of_nat maxPoints - 1)
                  (Z.of_nat i)). lia.
Qed.

Lemma downsample_idx_strict (len maxPoints i j : nat) :
  (2 <= maxPoints)%nat -> (maxPoints < len)%nat -> (i < j)%nat -> (j < maxPoints)%nat ->
  (downsample_idx len maxPoints i < downsample_idx len maxPoints j)%nat.
Proof.
  intros Hm Hlen Hij Hj.
  apply Nat2Z.inj_lt. rewrite (downsample_idx_inner len maxPoints i) by lia.
  destruct (decide (j = maxPoints - 1)%nat) as [->|Hne].
  - rewrite downsample_idx_last.
    pose proof (scaled_index_below (Z.of_nat len - 1) (Z.of_nat maxPoints - 1)
                  (Z.of_nat i)). lia.
  - rewrite (downsample_idx_inner len maxPoints j) by lia.
    pose proof (scaled_index_advances (Z.of_nat len - 1) (Z.of_nat maxPoints - 1)
                  (Z.of_nat i) (Z.of_nat j)). lia.
Qed.

Lemma StronglySorted_fmap_seq (f : nat -> nat) (start n : nat) :
  (forall i j, start <= i -> i < j -> j < start + n -> f i < f j)%nat ->
  StronglySorted lt (f <$> seq start n).
Proof.
  revert start. induction n as [|n IH]; intros start Hf; simpl.
  - constructor.
  - constructor.
    + apply IH. intros i j ? ? ?. apply Hf; lia.
    + apply Forall_fmap, Forall_forall. intros j Hj.
      apply elem_of_seq in Hj. simpl. apply Hf; lia.
Qed.

(** Reading an array at strictly increasing indices gives a subsequence. *)
Lemma sublist_of_increasing_reads {T} `{!Inhabited T} (data : list T) (idxs : list nat) :
  forall k,
    StronglySorted lt idxs ->
    Forall (fun i => k <= i < length data)%nat idxs ->
    sublist ((fun i => data !!! i) <$> idxs) (drop k data).
Proof.
  induction idxs as [|i idxs IH]; intros k Hs Hb; simpl.
  - apply sublist_nil_l.
  - apply StronglySorted_inv in Hs as [Hs Hhd].
    apply Forall_cons in Hb as [Hi Hb].
    assert (Hsplit : drop k data = take (i - k) (drop k data) ++ drop i data).
    { rewrite <- (take_drop (i - k) (drop k data)) at 1.
      f_equal. rewrite drop_drop. f_equal. lia. }
    rewrite Hsplit. apply sublist_inserts_l.
    destruct (lookup_lt_is_Some_2 data i) as [x Hx]; [lia|].
    rewrite (drop_S _ _ _ Hx), (list_lookup_total_correct _ _ _ Hx).
    apply sublist_skip, IH; [done|].
    rewrite Forall_forall in Hhd, Hb |- *.
    intros j Hj. specialize (Hhd j Hj). specialize (Hb j Hj). simpl in *. lia.
Qed.

(** ** The update loop of the chart *)

Lemma update_loop_fold data_of accts series_of (modes : list string) hasData calls :
  foldl (fun '(hasData, calls) mode =>
           match accts !! mode, series_of !! mode with
           | Some acct, Some series =>
               let history := equity_history acct in
               if Nat.eqb (length history) 0 then (hasData, calls)
               else (true, calls ++ [SetData series (data_of history)])
           | _, _ => (hasData, calls)
           end)
        (hasData, calls) modes =
  (hasData
   || existsb (fun mode =>
                 match accts !! mode, series_of !! mode with
                 | Some acct, Some _ => negb (Nat.eqb (length (equity_history acct)) 0)
                 | _, _ => false
                 end) modes,
   calls ++ omap (setData_of data_of accts series_of) modes).
Proof.
  revert hasData calls.
  induction modes as [|mode modes IH]; intros hasData calls; simpl.
  - by rewrite orb_false_r, app_nil_r.
  - unfold setData_of at 1.
    destruct (accts !! mode) as [acct|], (series_of !! mode) as [series|]; simpl;
      try apply IH.
    destruct (Nat.eqb (length (equity_history acct)) 0); simpl; [apply IH|].
    rewrite IH, orb_true_r, <- app_assoc. done.
Qed.

Lemma update_loop_unfold data_of accts series_of :
  update_loop data_of accts series_of =
  (has_charted_data series_of accts,
   omap (setData_of data_of accts series_of) MODE_CONFIG).
Proof. unfold update_loop. by rewrite update_loop_fold. Qed.

Lemma updateEffect_calls accts r :
  (updateEffect accts r).2 =
  match chartRef r with
  | None => []
  | Some _ =>
      omap (setData_of series_data accts (seriesRefs r)) MODE_CONFIG
      ++ (if has_charted_data (seriesRefs r) accts && negb (initialRangeSet r)
          then [FitContent] else [])
  end.
Proof.
  unfold updateEffect. destruct (chartRef r); [|done].
  rewrite update_loop_unfold.
  destruct (has_charted_data _ _ && _); simpl; [done|by rewrite app_nil_r].
Qed.

Lemma updateEffect_refs accts r :
  (updateEffect accts r).1 =
  match chartRef r with
  | None => r
  | Some _ =>
      if has_charted_data (seriesRefs r) accts && negb (initialRangeSet r)
      then {| chartRef := chartRef r; seriesRefs := seriesRefs r; initialRangeSet := true |}
      else r
  end.
Proof.
  unfold updateEffect. destruct (chartRef r); [|done].
  rewrite update_loop_unfold.
  by destruct (has_charted_data _ _ && _).
Qed.

Lemma setData_of_inv data_of accts series_of mode series d :
  setData_of data_of accts series_of mode = Some (SetData series d) ->
  exists acct,
    accts !! mode = Some acct /\ series_of !! mode = Some series
    /\ equity_history acct <> [] /\ d = data_of (equity_history acct).
Proof.
  unfold setData_of. intros Hs.
  destruct (accts !! mode) as [acct|]; [|done].
  destruct (series_of !! mode) as [s|]; [|done].
  destruct (equity_history acct) as [|pt h] eqn:Hh; simpl in Hs; [done|].
  exists acct. rewrite Hh. by simplify_eq.
Qed.

Lemma updateEffect_setData accts r series d :
  SetData series d ∈ (updateEffect accts r).2 ->
  exists mode acct,
    mode ∈ MODE_CONFIG /\ accts !! mode = Some acct
    /\ seriesRefs r !! mode = Some series
    /\ equity_history acct <> [] /\ d = series_data (equity_history acct).
Proof.
  rewrite updateEffect_calls. destruct (chartRef r); [|by intros ?%elem_of_nil].
  rewrite elem_of_app. intros [Hin|Hin].
  - apply list_elem_of_omap in Hin as (mode & Hmode & Hs).
    apply setData_of_inv in Hs as (acct & ? & ? & ? & ?). by exists mode, acct.
  - destruct (_ && _); [|by apply elem_of_nil in Hin].
    by apply list_elem_of_singleton in Hin.
Qed.

(** ** Claims on downsampling *)

(** C1. With a ceiling [maxPoints >= 2], [downsample] returns [data] itself
    when it has at most [maxPoints] points and an array of exactly
    [maxPoints] points otherwise; so no [setData] call of the update effect
    carries more than [MAX_CHART_POINTS] = 8000 points. *)
Theorem downsample_point_count {T} `{!Inhabited T} (data : list T) (maxPoints : nat) :
  (2 <= maxPoints)%nat ->
  ((length data <= maxPoints)%nat -> downsample data maxPoints = data)
  /\ ((maxPoints < length data)%nat -> length (downsample data maxPoints) = maxPoints)
  /\ MAX_CHART_POINTS = Z.to_nat 8000
  /\ (forall accts r series d,
        SetData series d ∈ (updateEffect accts r).2 ->
        (length d <= MAX_CHART_POINTS)%nat).
Proof.
  intros _. split; [apply downsample_short|]. split; [|split; [done|]].
  - intros Hlt. rewrite downsample_long by done.
    by rewrite length_fmap, length_seq.
  - intros accts r series d Hin.
    apply updateEffect_setData in Hin as (mode & acct & _ & _ & _ & _ & ->).
    apply downsample_length_le.
Qed.

Lemma downsample_point_count_witness :
  downsample [10; 20; 30]%nat 5 = [10; 20; 30]%nat
  /\ length (downsample [10; 20; 30; 40; 50]%nat 3) = 3%nat.
Proof.
  split.
  - apply (proj1 (downsample_point_count [10; 20; 30]%nat 5 ltac:(lia))).
    simpl. lia.
  - apply (proj1 (proj2 (downsample_point_count [10; 20; 30; 40; 50]%nat 3 ltac:(lia)))).
    simpl. lia.
Defined.



Example downsample_7_to_3 :
  downsample [10; 20; 30; 40; 50; 60; 70]%nat 3 = [10; 40; 70]%nat.
Proof. reflexivity. Qed.

(** With a step of 1.5 the halves round up: indices 0, 2, 3, 5, 6. *)
Example downsample_7_to_5 :
  downsample [10; 20; 30; 40; 50; 60; 70]%nat 5 = [10; 30; 40; 60; 70]%nat.
Proof. reflexivity. Qed.

Example downsample_6_to_4 :
  downsample [10; 20; 30; 40; 50; 60]%nat 4 = [10; 30; 40; 60]%nat.
Proof. reflexivity. Qed.

(** ** The state poller *)

(** C3. One poll step.  When the round fails (the fetch rejects, the
    response is not OK, or its body does not parse) only [error] is set, to
    a message, and the snapshot and [lastFetch] are kept; a network error
    gives its own message and a non-OK response gives "HTTP <status>".
    When it succeeds the snapshot is the parsed payload, [error] is null
    and [lastFetch] is the time of the poll. *)
Theorem fetchState_step {A} (o : FetchOutcome (option A)) (now : Z) (h : HookState A) :
  match parsed_payload o with
  | None =>
      state (fetchState o now h) = state h
      /\ lastFetch (fetchState o now h) = lastFetch h
      /\ is_Some (error (fetchState o now h))
      /\ match o with
         | FetchRejected (ErrorObject m) => error (fetchState o now h) = Some m
         | Response false res_status _ =>
             error (fetchState o now h) = Some ("HTTP " +:+ pretty res_status)
         | _ => True
         end
  | Some data =>
      fetchState o now h = {| state := data; error := None; lastFetch := now |}
  end.
Proof.
  destruct o as [[m|]|[] res_status [[m|]|data]]; simpl; eauto 10.
Qed.

(** A failed round after a successful one still shows that snapshot. *)
Lemma fetchState_keeps_last_snapshot {A} (o1 o2 : FetchOutcome (option A)) data t1 t2 h :
  parsed_payload o1 = Some data -> parsed_payload o2 = None ->
  state (fetchState o2 t2 (fetchState o1 t1 h)) = data
  /\ lastFetch (fetchState o2 t2 (fetchState o1 t1 h)) = t1.
Proof.
  intros H1 H2.
  destruct o1 as [?|[] ? [?|d1]]; simplify_eq/=.
  by destruct o2 as [?|[] ? [?|d2]]; simplify_eq/=.
Qed.

(** Over a run of polls the hook shows the payload of the last round that
    succeeded, with the time of that round, or what it held before. *)
Lemma poll_all_shows_last_success {A} (rounds : list (FetchOutcome (option A) * Z))
    (h : HookState A) :
  match last_success rounds with
  | Some (data, t) =>
      state (poll_all rounds h) = data /\ lastFetch (poll_all rounds h) = t
  | None =>
      state (poll_all rounds h) = state h
      /\ lastFetch (poll_all rounds h) = lastFetch h
  end.
Proof.
  revert h. induction rounds as [|[o now] rounds IH]; intros h; [done|].
  simpl. specialize (IH (fetchState o now h)).
  destruct (last_success rounds) as [[data t]|]; [done|].
  destruct IH as [-> ->].
  by destruct o as [?|[] ? [?|d]].
Qed.

Example fetchState_http_500 :
  fetchState (A := nat) (Response false 500 (inr (Some 7%nat))) 1234
    {| state := Some 3%nat; error := None; lastFetch := 1000 |}
  = {| state := Some 3%nat; error := Some "HTTP 500"%string; lastFetch := 1000 |}.
Proof. reflexivity. Qed.

(** ** Health status and formatting *)

Lemma append_s_ago_neq (s : string) :
  (s +:+ "s ago")%string <> "No recent update"%string.
Proof.
  intros E.
  repeat (destruct s as [|? s]; simpl in E;
          [discriminate E | first [discriminate E | injection E as _ E]]).
Qed.

Lemma js_ge_600_of_999 (x : JsNum) :
  js_ge x (Fin 999) = true -> js_ge x (Fin 600) = true.
Proof.
  destruct x as [| |q|]; simpl; try done.
  destruct (Qlt_le_dec q 999), (Qlt_le_dec q 600); try done. lra.
Qed.

Section FormatFacts.
Context `{JsHost}.
Local Open Scope string_scope.

Lemma formatSecsAgo_value (secs : JsNum) :
  formatSecsAgo secs =
  match secs with
  | Fin q =>
      if Qlt_le_dec q 600 then Number_toString (Math_round secs) +:+ "s ago"
      else "No recent update"
  | _ => "No recent update"
  end.
Proof.
  unfold formatSecsAgo, MAX_REASONABLE_SECS, SUSPICIOUS_SECS.
  destruct secs as [| |q|]; simpl; try done.
  destruct (Qlt_le_dec q 600), (Qlt_le_dec q 999); simpl; try done. lra.
Qed.
End FormatFacts.

Lemma Qround_half_up_nearest (q : Q) :
  (q - (1 # 2) < inject_Z (Qround_half_up q) <= q + (1 # 2))%Q.
Proof.
  unfold Qround_half_up.
  pose proof (Qfloor_le (q + (1 # 2))) as Hle.
  pose proof (Qlt_floor (q + (1 # 2))) as Hlt.
  rewrite inject_Z_plus in Hlt. change (inject_Z 1) with 1%Q in Hlt.
  split; lra.
Qed.

(** C5. [formatSecsAgo] answers "No recent update" exactly when its
    argument is not finite or is at least 600, which covers the 999 of the
    backend; otherwise it answers [Math.round(secs)] followed by "s ago". *)
Theorem formatSecsAgo_sentinel `{JsHost} (secs : JsNum) :
  (formatSecsAgo secs = "No recent update"%string
   <-> isFinite secs = false \/ js_ge secs (Fin 600) = true)
  /\ formatSecsAgo secs =
       (if isFinite secs && js_lt secs (Fin 600)
        then Number_toString (Math_round secs) +:+ "s ago"
        else "No recent update")%string
  /\ formatSecsAgo (Fin 999) = "No recent update"%string
  /\ formatSecsAgo SUSPICIOUS_SECS = "No recent update"%string.
Proof.
  split; [|split; [|by rewrite !formatSecsAgo_value]].
  - rewrite formatSecsAgo_value.
    destruct secs as [| |q|]; simpl; try by (split; [by left|done]).
    destruct (Qlt_le_dec q 600), (Qlt_le_dec 600 q); try lra.
    + split; [by intros ?%append_s_ago_neq|by intros [|]].
    + split; [by right|done].
    + split; [by right|done].
  - rewrite formatSecsAgo_value.
    destruct secs as [| |q|]; simpl; try done.
    destruct (Qlt_le_dec q 600); simpl; try done.
Qed.

Example formatSecsAgo_42 :
  @formatSecsAgo example_host (Fin (85 # 2)) = "43s ago"%string.
Proof. reflexivity. Qed.

Example formatSecsAgo_neg :
  @formatSecsAgo example_host (Fin (- 3 # 2)) = "-1s ago"%string.
Proof. reflexivity. Qed.

(** C4, as the code has it.  [getClobWsStatus] reads the seconds since the
    last update with null counting as 0, and answers: "Disconnected"
    (not ok, no warning) when the socket is not connected; else "Idle"
    (ok, warning) without a current market; else "Stale" (not ok, no
    warning) when the seconds are more than 60, which covers 999 and more,
    or are not finite; else "Connected" (ok, no warning). *)
Theorem getClobWsStatus_cases `{JsHost} (st : BotState) :
  let secsSince := default (Fin 0) (clob_ws_seconds_since_update st) in
  let s := getClobWsStatus st in
  (status s, ok s, warning s) =
  if negb (clob_ws_connected st) then ("Disconnected"%string, false, false)
  else match current_market st with
       | None => ("Idle"%string, true, true)
       | Some _ =>
           match secsSince with
           | Fin q =>
               if Qlt_le_dec 60 q then ("Stale"%string, false, false)
               else ("Connected"%string, true, false)
           | _ => ("Stale"%string, false, false)
           end
       end.
Proof.
  unfold getClobWsStatus, SUSPICIOUS_SECS.
  destruct (clob_ws_connected st); simpl; [|done].
  destruct (current_market st); simpl; [|done].
  destruct (default (Fin 0) (clob_ws_seconds_since_update st)) as [| |q|];
    simpl; try done.
  destruct (Qlt_le_dec 60 q), (Qlt_le_dec q 999); simpl; try done. lra.
Qed.

(** The status does not depend on the host, and a known age is rated on
    the number itself. *)
Lemma getClobWsStatus_number `{JsHost} (st : BotState) (n : JsNum) :
  clob_ws_seconds_since_update st = Some n ->
  status (getClobWsStatus st) = spec_clob_status st.
Proof.
  intros Hn. unfold getClobWsStatus, spec_clob_status, SUSPICIOUS_SECS.
  rewrite Hn. simpl.
  destruct (clob_ws_connected st); simpl; [|done].
  destruct (current_market st); simpl; [|done].
  destruct n as [| |q|]; simpl; try done.
  destruct (Qlt_le_dec 60 q), (Qlt_le_dec q 999); simpl; done.
Qed.

(** A connected socket with a market and a null age is rated "Connected",
    although null is not a finite number. *)
Lemma getClobWsStatus_null_age :
  let st := {| clob_ws_connected := true;
               clob_ws_seconds_since_update := None;
               current_market :=
                 Some {| title := "BTC"; slug := "btc-5m"; seconds_elapsed := Fin 10 |};
               accounts := ∅ |} in
  status (@getClobWsStatus example_host st) = "Connected"%string
  /\ spec_clob_status st = "Stale"%string
  /\ status (@getClobWsStatus example_host st) <> spec_clob_status st.
Proof. by vm_compute. Qed.

(** ** Formatting helpers *)

(** C9. On null, undefined and NaN, [fmtUsd] and [safeToFixed] return the
    dash and [fmtUptime] returns "0s", as it does on every number that is
    at most 0; none of these calls throws. *)
Theorem format_helpers_total `{JsHost} (digits : Z) :
  (fmtUsd ANull = Normal "—" /\ fmtUsd AUndefined = Normal "—"
   /\ fmtUsd (ANum NaN) = Normal "—")%string
  /\ (safeToFixed ANull digits = Normal "—"
      /\ safeToFixed AUndefined digits = Normal "—"
      /\ safeToFixed (ANum NaN) digits = Normal "—")%string
  /\ (fmtUptime ANull = "0s" /\ fmtUptime AUndefined = "0s"
      /\ fmtUptime (ANum NaN) = "0s")%string
  /\ (forall n, js_le n (Fin 0) = true -> fmtUptime (ANum n) = "0s"%string).
Proof.
  repeat split; try reflexivity.
  intros n Hn. unfold fmtUptime. simpl. by rewrite Hn, orb_true_r.
Qed.

Lemma format_helpers_total_witness :
  @fmtUptime example_host (ANum (Fin (- 5))) = "0s"%string.
Proof.
  apply (proj2 (proj2 (proj2 (@format_helpers_total example_host 2)))).
  reflexivity.
Defined.

(** [fmtUsd] never throws, whatever its argument. *)
Lemma fmtUsd_never_throws `{JsHost} (n : JsArg) : exists s, fmtUsd n = Normal s.
Proof. destruct n as [| |[| |q|]]; simpl; eauto. Qed.

(** X27. [safeToFixed] can only throw through the digits of [toFixed]:
    when it throws, the error is a RangeError and the digits are outside
    of 0..100. *)
Lemma safeToFixed_throws `{JsHost} (value : JsArg) (digits : Z) (e : JsError) :
  safeToFixed value digits = Throw e ->
  e = RangeError /\ ~ (0 <= digits <= 100).
Proof.
  unfold safeToFixed, toFixed.
  destruct value as [| |n]; simpl; try done.
  destruct (isNaN n); simpl; [done|].
  destruct (Z.leb_spec 0 digits), (Z.leb_spec digits 100); simpl;
    intros; simplify_eq; (split; [done|lia]).
Qed.

Example fmtUptime_example :
  @fmtUptime example_host (ANum (Fin 93784)) = "1d 2h 3m"%string.
Proof. reflexivity. Qed.

Example fmtUptime_minutes :
  @fmtUptime example_host (ANum (Fin (1235 # 10))) = "2m 3s"%string.
Proof. reflexivity. Qed.

(** ** Market window progress *)



(** Without a guard, [NaN] goes through [Math.max] and [Math.min]. *)
Lemma windowPct_NaN (m : MarketInfo) :
  seconds_elapsed m = NaN -> windowPct (Some m) = NaN.
Proof. intros Hm. unfold windowPct. by rewrite Hm. Qed.




Example windowPct_half :
  windowPct (Some {| title := "BTC"; slug := "btc-5m"; seconds_elapsed := Fin 150 |})
  = Fin (150 / 300).
Proof. reflexivity. Qed.

Example windowPct_over :
  windowPct (Some {| title := "BTC"; slug := "btc-5m"; seconds_elapsed := Fin 420 |})
  = Fin 1.
Proof. reflexivity. Qed.

(** ** Array.prototype.sort *)

Section ArraySortFacts.
Context {T : Type} (comparefn : T -> T -> JsNum).
Implicit Types (x y : T) (l : list T).

Lemma sort_insert_Permutation x l : sort_insert comparefn x l ≡ₚ x :: l.
Proof.
  induction l as [|y l IH]; simpl; [done|].
  destruct (stays_before comparefn x y); [done|].
  rewrite IH. apply Permutation_swap.
Qed.

Lemma Array_sort_Permutation l : Array_sort comparefn l ≡ₚ l.
Proof.
  induction l as [|x l IH]; simpl; [done|].
  by rewrite sort_insert_Permutation, IH.
Qed.

Lemma Array_sort_length l : length (Array_sort comparefn l) = length l.
Proof. by rewrite Array_sort_Permutation. Qed.

(** An array that is already in order is returned as it is. *)
Lemma Array_sort_of_sorted l :
  Sorted (fun a b => stays_before comparefn a b = true) l ->
  Array_sort comparefn l = l.
Proof.
  induction 1 as [|x l Hs IH Hx]; simpl; [done|].
  rewrite IH. destruct Hx as [|y l Hxy]; simpl; [done|]. by rewrite Hxy.
Qed.

(** The comparator is only required to be consistent on the elements
    that satisfy [P]. *)
Context (P : T -> Prop).
Hypothesis before_total :
  forall x y, P x -> P y ->
    stays_before comparefn x y = false -> stays_before comparefn y x = true.
Hypothesis before_trans :
  forall x y z, P x -> P y -> P z ->
    stays_before comparefn x y = true -> stays_before comparefn y z = true ->
    stays_before comparefn x z = true.

Lemma sort_insert_sorted x l :
  P x -> Forall P l ->
  StronglySorted (fun a b => stays_before comparefn a b = true) l ->
  StronglySorted (fun a b => stays_before comparefn a b = true)
    (sort_insert comparefn x l).
Proof using before_total before_trans.
  intros Hx HP Hs. induction Hs as [|y l Hs IH Hy]; simpl.
  - repeat constructor.
  - apply Forall_cons in HP as [HPy HPl].
    destruct (stays_before comparefn x y) eqn:Hxy.
    + constructor; [by constructor|]. constructor; [done|].
      rewrite Forall_forall in Hy, HPl |- *. intros z Hz.
      eapply before_trans; eauto.
    + constructor; [by apply IH|].
      rewrite sort_insert_Permutation. constructor; [|done].
      by apply before_total.
Qed.

Lemma Array_sort_sorted l :
  Forall P l ->
  StronglySorted (fun a b => stays_before comparefn a b = true)
    (Array_sort comparefn l).
Proof using before_total before_trans.
  induction l as [|x l IH]; intros HP; simpl; [constructor|].
  apply Forall_cons in HP as [Hx HP].
  apply sort_insert_sorted; [done| |by apply IH].
  by rewrite Array_sort_Permutation.
Qed.
End ArraySortFacts.

(** ** Lexicographic order on strings *)

Lemma ascii_compare_refl (a : Ascii.ascii) : Ascii.compare a a = Eq.
Proof. unfold Ascii.compare. apply N.compare_refl. Qed.


Lemma string_compare_refl (s : string) : String.compare s s = Eq.
Proof.
  induction s as [|a s IH]; simpl; [done|]. by rewrite ascii_compare_refl.
Qed.




Lemma or_empty_id (s : string) : or_empty s = s.
Proof.
  unfold or_empty. destruct (String.eqb_spec s ""); by subst.
Qed.

(** The comparator of the event sections keeps [a] before [b] exactly when
    the time of [b] is not greater. *)
Lemma stays_before_by_time_desc (a b : TradeEvent) :
  stays_before by_time_desc a b = String.leb (time b) (time a).
Proof.
  unfold stays_before, SortCompare, by_time_desc, localeCompare, String.leb.
  rewrite !or_empty_id.
  destruct (String.compare (time b) (time a)); by vm_compute.
Qed.




(** ** Trade column *)








Example EventSection_example :
  let ev t := {| type := "ENTRY"; time := t; result := None; reject_reason := None |} in
  EventSection "Entries" 4
    [ev "2025-01-01T10:00:00"; ev "2025-01-01T12:00:00";
     ev "2025-01-01T09:00:00"; ev "2025-01-01T11:00:00"]%string false
  = Some {| sv_title := "Entries"; sv_count := 4;
            sv_preview := [ev "2025-01-01T12:00:00"; ev "2025-01-01T11:00:00";
                           ev "2025-01-01T10:00:00"]%string;
            sv_rest := [ev "2025-01-01T09:00:00"%string];
            sv_toggle := true;
            sv_rest_rendered := [] |}.
Proof. reflexivity. Qed.

(** ** The data of a chart series *)

Lemma stays_before_by_time (a b : Point) :
  json_number (p_time a) -> json_number (p_time b) ->
  stays_before by_time a b = js_le (p_time a) (p_time b).
Proof.
  unfold json_number, stays_before, SortCompare, by_time.
  destruct (p_time a) as [| |x|], (p_time b) as [| |y|]; try done.
  intros _ _. simpl.
  destruct (Qlt_le_dec 0 (x - y)), (Qlt_le_dec y x); simpl; try done; lra.
Qed.

Lemma js_le_total (x y : JsNum) :
  json_number x -> json_number y -> js_le x y = false -> js_le y x = true.
Proof.
  unfold json_number. destruct x as [| |a|], y as [| |b|]; try done.
  intros _ _. simpl. destruct (Qlt_le_dec b a), (Qlt_le_dec a b); try done. lra.
Qed.

Lemma js_le_trans (x y z : JsNum) :
  js_le x y = true -> js_le y z = true -> js_le x z = true.
Proof.
  destruct x as [| |a|], y as [| |b|], z as [| |c|]; try done. simpl.
  destruct (Qlt_le_dec b a), (Qlt_le_dec c b), (Qlt_le_dec c a); try done. lra.
Qed.

Lemma Array_sort_by_time_sorted (pts : list Point) :
  Forall (fun p => json_number (p_time p)) pts ->
  StronglySorted (fun a b => js_le (p_time a) (p_time b) = true)
    (Array_sort by_time pts).
Proof.
  intros Hjson.
  assert (Hsorted : Forall (fun p => json_number (p_time p)) (Array_sort by_time pts)).
  { by rewrite Array_sort_Permutation. }
  pose proof (Array_sort_sorted by_time (fun p => json_number (p_time p))) as Hs.
  specialize (Hs ltac:(intros a b Ha Hb; rewrite !stays_before_by_time by done;
                        by apply js_le_total)).
  specialize (Hs ltac:(intros a b c Ha Hb Hc; rewrite !stays_before_by_time by done;
                        apply js_le_trans)).
  specialize (Hs pts Hjson).
  revert Hs Hsorted. generalize (Array_sort by_time pts). intros l Hs.
  induction Hs as [|x l Hs IH Hx]; intros HP; [constructor|].
  apply Forall_cons in HP as [HPx HPl]. constructor; [by apply IH|].
  rewrite Forall_forall in Hx, HPl |- *. intros y Hy.
  rewrite <- stays_before_by_time by auto. auto.
Qed.

Lemma updateEffect_passes_series_data accts r mode acct series :
  chartRef r = Some TheChart ->
  mode ∈ MODE_CONFIG ->
  accts !! mode = Some acct ->
  seriesRefs r !! mode = Some series ->
  equity_history acct <> [] ->
  SetData series (series_data (equity_history acct)) ∈ (updateEffect accts r).2.
Proof.
  intros Hchart Hmode Hacct Hseries Hne.
  rewrite updateEffect_calls, Hchart.
  apply elem_of_app. left. apply list_elem_of_omap. exists mode.
  split; [done|]. unfold setData_of. rewrite Hacct, Hseries.
  by destruct (equity_history acct).
Qed.

(** C7, as the code has it.  For an account whose history is not empty,
    has at most [MAX_CHART_POINTS] points and carries JSON numbers as
    timestamps, the array given to [setData] is the history mapped to
    (time = ts, value = equity) and sorted by nondecreasing time, a
    permutation of the mapped history; whatever the length it is the
    downsampling of that sorted array.  The update makes this one call on
    the series of each mode that has a series and such an account. *)
Theorem series_data_sorted_history (history : list EquityPoint) :
  history <> [] ->
  (length history <= MAX_CHART_POINTS)%nat ->
  Forall (fun pt => json_number (ts pt)) history ->
  series_data history = Array_sort by_time (to_point <$> history)
  /\ series_data history ≡ₚ to_point <$> history
  /\ StronglySorted (fun a b => js_le (p_time a) (p_time b) = true)
       (series_data history)
  /\ (forall accts r mode acct series,
        chartRef r = Some TheChart ->
        mode ∈ MODE_CONFIG ->
        accts !! mode = Some acct ->
        seriesRefs r !! mode = Some series ->
        equity_history acct = history ->
        SetData series (series_data history) ∈ (updateEffect accts r).2
        /\ forall d, SetData series d ∈ (updateEffect accts r).2 ->
             exists mode' acct',
               accts !! mode' = Some acct'
               /\ seriesRefs r !! mode' = Some series
               /\ d = series_data (equity_history acct')).
Proof.
  intros Hne Hlen Hjson.
  assert (Heq : series_data history = Array_sort by_time (to_point <$> history)).
  { unfold series_data. apply downsample_short.
    by rewrite Array_sort_length, length_fmap. }
  split; [done|]. rewrite Heq.
  split; [apply Array_sort_Permutation|].
  split.
  { apply Array_sort_by_time_sorted, Forall_fmap.
    eapply Forall_impl; [exact Hjson|]. by intros [t e]. }
  intros accts r mode acct series Hchart Hmode Hacct Hseries Hhist. split.
  - rewrite <- Heq, <- Hhist in *.
    by apply (updateEffect_passes_series_data accts r mode).
  - intros d Hd. apply updateEffect_setData in Hd
      as (mode' & acct' & _ & ? & ? & _ & ->). by exists mode', acct'.
Qed.

Lemma series_data_sorted_history_witness :
  let history := [ {| ts := Fin 30; equity := Fin 101 |};
                   {| ts := Fin 10; equity := Fin 100 |};
                   {| ts := Fin 20; equity := Fin 102 |} ] in
  series_data history ≡ₚ to_point <$> history.
Proof.
  intros history.
  apply (series_data_sorted_history history).
  - discriminate.
  - unfold MAX_CHART_POINTS. simpl. lia.
  - repeat constructor; discriminate.
Defined.

Example series_data_example :
  series_data [ {| ts := Fin 30; equity := Fin 101 |};
                {| ts := Fin 10; equity := Fin 100 |};
                {| ts := Fin 20; equity := Fin 102 |} ]
  = [ {| p_time := Fin 10; p_value := Fin 100 |};
      {| p_time := Fin 20; p_value := Fin 102 |};
      {| p_time := Fin 30; p_value := Fin 101 |} ].
Proof. by vm_compute. Qed.

(** A history of 8001 points, one per second: the series receives 8000
    points, which is neither the sorted history nor a permutation of it. *)
Lemma series_data_long_history :
  let history :=
    (fun i => {| ts := Fin (inject_Z (Z.of_nat i)); equity := Fin 100 |})
      <$> seq 0 (S MAX_CHART_POINTS) in
  let acct := {| label := "Dual (Both)"; equity_history := history;
                 trade_events := [] |} in
  let r := {| chartRef := Some TheChart; seriesRefs := {[ "dual"%string := 0%nat ]};
              initialRangeSet := false |} in
  history <> []
  /\ length history = S MAX_CHART_POINTS
  /\ SetData 0 (series_data history) ∈ (updateEffect {[ "dual"%string := acct ]} r).2
  /\ length (series_data history) = MAX_CHART_POINTS
  /\ series_data history <> Array_sort by_time (to_point <$> history)
  /\ ~ (series_data history ≡ₚ to_point <$> history).
Proof.
  intros history acct r.
  assert (Hlen : length history = S MAX_CHART_POINTS).
  { unfold history. by rewrite length_fmap, length_seq. }
  assert (Hout : length (series_data history) = MAX_CHART_POINTS).
  { unfold series_data. rewrite downsample_long.
    - by rewrite length_fmap, length_seq.
    - rewrite Array_sort_length, length_fmap, Hlen. lia. }
  assert (Hne : history <> []) by (by intros E; rewrite E in Hlen).
  split; [done|]. split; [done|].
  split.
  { apply (updateEffect_passes_series_data _ r "dual"%string acct 0%nat);
      [done| |apply lookup_singleton_eq|apply lookup_singleton_eq|done].
    unfold MODE_CONFIG. apply list_elem_of_In. simpl. tauto. }
  split; [done|]. split.
  - intros E. apply (f_equal length) in E.
    rewrite Hout, Array_sort_length, length_fmap, Hlen in E. lia.
  - intros E. apply Permutation_length in E.
    rewrite Hout, length_fmap, Hlen in E. lia.
Qed.

(** ** The visible range of the chart *)

Lemma range_calls_app (c1 c2 : list ChartCall) :
  range_calls (c1 ++ c2) = range_calls c1 ++ range_calls c2.
Proof. unfold range_calls. apply List.filter_app. Qed.

Lemma range_calls_setData data_of accts series_of (modes : list string) :
  range_calls (omap (setData_of data_of accts series_of) modes) = [].
Proof.
  induction modes as [|mode modes IH]; simpl; [done|].
  unfold setData_of at 1.
  destruct (accts !! mode) as [acct|], (series_of !! mode) as [series|]; try done.
  by destruct (Nat.eqb (length (equity_history acct)) 0).
Qed.

Lemma updateEffect_range_calls accts r :
  chartRef r = Some TheChart ->
  range_calls (updateEffect accts r).2 =
  if has_charted_data (seriesRefs r) accts && negb (initialRangeSet r)
  then [FitContent] else [].
Proof.
  intros Hchart. rewrite updateEffect_calls, Hchart, range_calls_app.
  rewrite range_calls_setData. by destruct (_ && _).
Qed.

Lemma updateEffect_flag accts r :
  chartRef r = Some TheChart ->
  chartRef (updateEffect accts r).1 = Some TheChart
  /\ seriesRefs (updateEffect accts r).1 = seriesRefs r
  /\ initialRangeSet (updateEffect accts r).1 =
       initialRangeSet r || has_charted_data (seriesRefs r) accts.
Proof.
  intros Hchart. rewrite updateEffect_refs, Hchart.
  destruct (has_charted_data (seriesRefs r) accts), (initialRangeSet r) eqn:Hflag;
    simpl; by rewrite ?Hflag.
Qed.

Lemma run_updates_cons accts snaps r :
  run_updates (accts :: snaps) r =
  ((run_updates snaps (updateEffect accts r).1).1,
   (updateEffect accts r).2 :: (run_updates snaps (updateEffect accts r).1).2).
Proof.
  simpl. destruct (updateEffect accts r) as [r1 calls]. simpl.
  by destruct (run_updates snaps r1).
Qed.

Lemma run_updates_length snaps r : length (run_updates snaps r).2 = length snaps.
Proof.
  revert r. induction snaps as [|accts snaps IH]; intros r; [done|].
  rewrite run_updates_cons. simpl. by rewrite IH.
Qed.

Lemma run_updates_flag snaps r :
  chartRef r = Some TheChart ->
  chartRef (run_updates snaps r).1 = Some TheChart
  /\ seriesRefs (run_updates snaps r).1 = seriesRefs r
  /\ initialRangeSet (run_updates snaps r).1 =
       initialRangeSet r
       || match first_index (has_charted_data (seriesRefs r)) snaps with
          | Some _ => true
          | None => false
          end.
Proof.
  revert r. induction snaps as [|accts snaps IH]; intros r Hchart.
  - simpl. by rewrite orb_false_r.
  - rewrite run_updates_cons. simpl.
    destruct (updateEffect_flag accts r Hchart) as (Hc & Hs & Hf).
    destruct (IH _ Hc) as (Hc' & Hs' & Hf').
    rewrite Hc', Hs', Hf', Hs, Hf. split; [done|]. split; [done|].
    destruct (has_charted_data (seriesRefs r) accts); simpl.
    + by rewrite !orb_true_r.
    + rewrite orb_false_r.
      by destruct (first_index (has_charted_data (seriesRefs r)) snaps).
Qed.

Lemma run_updates_range_calls snaps r k calls :
  chartRef r = Some TheChart ->
  (run_updates snaps r).2 !! k = Some calls ->
  range_calls calls =
  if initialRangeSet r then []
  else if decide (first_index (has_charted_data (seriesRefs r)) snaps = Some k)
       then [FitContent] else [].
Proof.
  revert r k. induction snaps as [|accts snaps IH]; intros r k Hchart; [done|].
  rewrite run_updates_cons.
  destruct (updateEffect_flag accts r Hchart) as (Hc & Hs & Hf).
  destruct k as [|k].
  - intros [= <-]. rewrite updateEffect_range_calls by done.
    destruct (initialRangeSet r); [by rewrite andb_false_r|].
    rewrite andb_true_r. cbn [first_index].
    destruct (has_charted_data (seriesRefs r) accts).
    + by rewrite decide_True.
    + rewrite decide_False; [done|].
      by destruct (first_index (has_charted_data (seriesRefs r)) snaps).
  - intros Hk. cbn [snd lookup list_lookup] in Hk.
    rewrite (IH _ _ Hc Hk), Hf, Hs. cbn [first_index].
    destruct (initialRangeSet r); [done|]. cbn [orb].
    destruct (has_charted_data (seriesRefs r) accts).
    + by rewrite decide_False.
    + destruct (first_index (has_charted_data (seriesRefs r)) snaps) as [j|];
        [|by rewrite !decide_False].
      destruct (decide (j = k)) as [->|Hne].
      * by rewrite !decide_True.
      * rewrite !decide_False; [done| |]; by intros [= ?].
Qed.

Lemma run_updates_range_total snaps r :
  chartRef r = Some TheChart ->
  length (range_calls (concat (run_updates snaps r).2)) =
  if initialRangeSet r then 0%nat
  else match first_index (has_charted_data (seriesRefs r)) snaps with
       | Some _ => 1%nat
       | None => 0%nat
       end.
Proof.
  revert r. induction snaps as [|accts snaps IH]; intros r Hchart.
  - simpl. by destruct (initialRangeSet r).
  - rewrite run_updates_cons. cbn [snd concat first_index].
    destruct (updateEffect_flag accts r Hchart) as (Hc & Hs & Hf).
    rewrite range_calls_app, length_app, (IH _ Hc), Hf, Hs.
    rewrite updateEffect_range_calls by done.
    destruct (initialRangeSet r); [by rewrite andb_false_r|].
    rewrite andb_true_r. cbn [orb].
    destruct (has_charted_data (seriesRefs r) accts); [done|].
    by destruct (first_index (has_charted_data (seriesRefs r)) snaps).
Qed.

Lemma first_index_take {A} (f : A -> bool) (l : list A) (n : nat) :
  is_Some (first_index f (take n l)) <->
  exists k, first_index f l = Some k /\ (k < n)%nat.
Proof.
  revert n. induction l as [|x l IH]; intros n.
  - rewrite take_nil. simpl. split; [by intros [? ?]|by intros (? & ? & _)].
  - destruct n as [|n]; simpl.
    + split; [by intros [? ?]|]. intros (? & _ & ?). lia.
    + destruct (f x).
      * split; [|by eexists]. intros _. exists 0%nat. split; [done|lia].
      * rewrite fmap_is_Some, IH. split.
        -- intros (k & -> & ?). exists (S k). split; [done|lia].
        -- intros (k & Hk & ?). destruct (first_index f l) as [j|]; [|done].
           simpl in Hk. injection Hk as <-. exists j. split; [done|lia].
Qed.

(** C2, as the code has it.  After the chart is created, whatever
    snapshots follow, the update effect sets the visible range in one
    update only: the first in which a configured mode that has a series
    also has an account with a non-empty equity_history.  In that update
    it calls [fitContent] once and raises [initialRangeSet], which stays
    raised; no other update calls [setVisibleRange] or [fitContent]. *)
Theorem EquityChart_range_set_once (r0 : ChartRefs)
    (snaps : list (gmap string AccountData)) :
  chartRef r0 = Some TheChart ->
  initialRangeSet r0 = false ->
  let first := first_index (has_charted_data (seriesRefs r0)) snaps in
  let traces := (run_updates snaps r0).2 in
  length traces = length snaps
  /\ (forall k calls,
        traces !! k = Some calls ->
        range_calls calls = if decide (first = Some k) then [FitContent] else [])
  /\ (length (range_calls (concat traces)) <= 1)%nat
  /\ (forall n,
        initialRangeSet (run_updates (take n snaps) r0).1 = true <->
        exists k, first = Some k /\ (k < n)%nat).
Proof.
  intros Hchart Hflag first traces.
  split; [apply run_updates_length|]. split; [|split].
  - intros k calls Hk.
    rewrite (run_updates_range_calls snaps r0 k calls Hchart Hk). by rewrite Hflag.
  - unfold traces. rewrite run_updates_range_total, Hflag by done.
    destruct (first_index _ snaps); lia.
  - intros n.
    destruct (run_updates_flag (take n snaps) r0 Hchart) as (_ & _ & ->).
    rewrite Hflag. cbn [orb]. unfold first. rewrite <- first_index_take.
    destruct (first_index _ (take n snaps)); split; try done; try by eexists.
Qed.

Lemma EquityChart_range_set_once_witness :
  let pt := {| ts := Fin 1700000000; equity := Fin 1000 |} in
  let acct h := {| label := "Binance"; equity_history := h; trade_events := [] |} in
  let r0 := (mountEffect true {[ "binance_only"%string := acct [] ]} EquityChart_init).1 in
  let snaps := [ {[ "binance_only"%string := acct [] ]};
                 {[ "binance_only"%string := acct [pt] ]};
                 {[ "binance_only"%string := acct [pt; pt] ]} ] in
  (length (range_calls (concat (run_updates snaps r0).2)) <= 1)%nat.
Proof.
  intros pt acct r0 snaps.
  apply (EquityChart_range_set_once r0 snaps); reflexivity.
Defined.

Example EquityChart_run_example :
  let pt := {| ts := Fin 1700000000; equity := Fin 1000 |} in
  let p := {| p_time := Fin 1700000000; p_value := Fin 1000 |} in
  let acct h := {| label := "Binance"; equity_history := h; trade_events := [] |} in
  let r0 := (mountEffect true {[ "binance_only"%string := acct [] ]} EquityChart_init).1 in
  (run_updates [ {[ "binance_only"%string := acct [] ]};
                 {[ "binance_only"%string := acct [pt] ]};
                 {[ "binance_only"%string := acct [pt; pt] ]} ] r0).2
  = [ []; [SetData 0 [p]; FitContent]; [SetData 0 [p; p]] ].
Proof. by vm_compute. Qed.

(** An account without a series does not count.  The chart is created
    while only [binance_only] exists; [dual] appears with history in the
    first update, [binance_only] gets history in the second.  The first
    update, although an account has history, sets no range; the second
    one does. *)
Lemma EquityChart_range_waits_for_series :
  let pt := {| ts := Fin 1700000000; equity := Fin 1000 |} in
  let acct l h := {| label := l; equity_history := h; trade_events := [] |} in
  let r0 := (mountEffect true {[ "binance_only"%string := acct "Binance"%string [] ]}
               EquityChart_init).1 in
  let snaps :=
    [ {[ "binance_only"%string := acct "Binance"%string [];
         "dual"%string := acct "Dual (Both)"%string [pt] ]};
      {[ "binance_only"%string := acct "Binance"%string [pt];
         "dual"%string := acct "Dual (Both)"%string [pt] ]} ] in
  chartRef r0 = Some TheChart
  /\ initialRangeSet r0 = false
  /\ first_index some_account_has_history snaps = Some 0%nat
  /\ range_calls <$> (run_updates snaps r0).2 = [ []; [FitContent] ].
Proof. by vm_compute. Qed.

(** ** Chart creation *)

(** The mount effect leaves a chart, a lowered [initialRangeSet], and one
    series, distinct from the others, for each configured mode that has an
    account at that time. *)
Lemma mountEffect_creates (accts : gmap string AccountData) (r : ChartRefs) :
  let r1 := (mountEffect true accts r).1 in
  chartRef r1 = Some TheChart
  /\ initialRangeSet r1 = false
  /\ (forall mode, is_Some (seriesRefs r1 !! mode) <->
        mode ∈ MODE_CONFIG /\ is_Some (accts !! mode))
  /\ (forall m1 m2 series,
        seriesRefs r1 !! m1 = Some series -> seriesRefs r1 !! m2 = Some series -> m1 = m2).
Proof.
  unfold mountEffect, MODE_CONFIG. simpl.
  destruct (accts !! "binance_only"%string) as [a1|] eqn:H1;
  destruct (accts !! "chainlink_only"%string) as [a2|] eqn:H2;
  destruct (accts !! "dual"%string) as [a3|] eqn:H3; simpl.
  all: repeat match goal with
       | |- context [size ?X] =>
           let n := eval vm_compute in (size X) in change (size X) with n
       end.
  all: split; [done|]; split; [done|].
  all: split.
  all: try (intros mode; rewrite !list_elem_of_In; simpl;
    rewrite <- ?not_eq_None_Some, ?lookup_insert_None, ?lookup_empty;
    destruct (decide (mode = "binance_only"%string)) as [->|];
    [|destruct (decide (mode = "chainlink_only"%string)) as [->|];
     [|destruct (decide (mode = "dual"%string)) as [->|]]];
    rewrite ?H1, ?H2, ?H3; intuition congruence).
  all: intros m1 m2 series; rewrite ?lookup_insert_Some, ?lookup_empty;
    intuition congruence.
Qed.

(** ** The earlier version of the update effect *)

Lemma updateEffect_v1_range_calls env accts r :
  chartRef r = Some TheChart ->
  range_calls (updateEffect_v1 env accts r).2 =
  if has_charted_data (seriesRefs r) accts && negb (initialRangeSet r)
  then SetVisibleRange (now_first env / 1000 - 3 * 3600) (now_second env / 1000)
       :: (if setVisibleRange_throws env then [FitContent] else [])
  else [].
Proof.
  intros Hchart. unfold updateEffect_v1. rewrite Hchart, update_loop_unfold.
  destruct (has_charted_data _ _ && _); cbn [snd].
  - rewrite range_calls_app, range_calls_setData.
    by destruct (setVisibleRange_throws env).
  - apply range_calls_setData.
Qed.

Lemma updateEffect_v1_flag env accts r :
  chartRef r = Some TheChart ->
  chartRef (updateEffect_v1 env accts r).1 = Some TheChart
  /\ seriesRefs (updateEffect_v1 env accts r).1 = seriesRefs r
  /\ initialRangeSet (updateEffect_v1 env accts r).1 =
       initialRangeSet r || has_charted_data (seriesRefs r) accts.
Proof.
  intros Hchart. unfold updateEffect_v1. rewrite Hchart, update_loop_unfold.
  destruct (has_charted_data (seriesRefs r) accts), (initialRangeSet r) eqn:Hflag;
    simpl; by rewrite ?Hflag.
Qed.

Lemma run_updates_v1_cons env accts snaps r :
  run_updates_v1 ((env, accts) :: snaps) r =
  ((run_updates_v1 snaps (updateEffect_v1 env accts r).1).1,
   (updateEffect_v1 env accts r).2
   :: (run_updates_v1 snaps (updateEffect_v1 env accts r).1).2).
Proof.
  simpl. destruct (updateEffect_v1 env accts r) as [r1 calls]. simpl.
  by destruct (run_updates_v1 snaps r1).
Qed.

(** X26. The earlier version too touches the range in one update only:
    the first with charted data, where it calls [setVisibleRange] and, if
    that throws, [fitContent]. *)
Lemma run_updates_v1_range_calls snaps r k calls :
  chartRef r = Some TheChart ->
  (run_updates_v1 snaps r).2 !! k = Some calls ->
  range_calls calls <> [] <->
  initialRangeSet r = false
  /\ first_index (fun s => has_charted_data (seriesRefs r) s.2) snaps = Some k.
Proof.
  revert r k. induction snaps as [|[env accts] snaps IH]; intros r k Hchart; [done|].
  rewrite run_updates_v1_cons.
  destruct (updateEffect_v1_flag env accts r Hchart) as (Hc & Hs & Hf).
  destruct k as [|k].
  - intros [= <-]. rewrite updateEffect_v1_range_calls by done.
    cbn [first_index snd].
    destruct (initialRangeSet r), (has_charted_data (seriesRefs r) accts);
      cbn [andb negb]; try by (split; [|intros [? ?]]).
    split; [done|]. intros [_ Hfirst].
    by destruct (first_index _ snaps).
  - intros Hk. cbn [snd lookup list_lookup] in Hk.
    rewrite (IH _ _ Hc Hk), Hf, Hs. cbn [first_index snd].
    destruct (initialRangeSet r); cbn [orb]; [by split; intros [? ?]|].
    destruct (has_charted_data (seriesRefs r) accts).
    + split; by intros [? ?].
    + destruct (first_index _ snaps) as [j|]; cbn.
      * split; intros [_ [= ->]]; done.
      * split; by intros [? ?].
Qed.

(** * Further properties *)

(** ** Colours *)

(** X1. [getMoveValueColor] answers gray exactly below the minimum, green
    exactly from the minimum up to below the full threshold, and the
    emerald class otherwise; so a NaN move gets the emerald class, and
    green never shows when the full threshold is not above the minimum. *)
Theorem getMoveValueColor_classes (absMove minThreshold fullThreshold : JsNum) :
  (getMoveValueColor absMove minThreshold fullThreshold = "text-gray-400"%string
   <-> js_lt absMove minThreshold = true)
  /\ (getMoveValueColor absMove minThreshold fullThreshold = "text-green-500"%string
      <-> js_lt absMove minThreshold = false /\ js_lt absMove fullThreshold = true)
  /\ (getMoveValueColor absMove minThreshold fullThreshold
        = "text-emerald-400 font-semibold"%string
      <-> js_lt absMove minThreshold = false /\ js_lt absMove fullThreshold = false)
  /\ getMoveValueColor NaN minThreshold fullThreshold
       = "text-emerald-400 font-semibold"%string
  /\ (js_le fullThreshold minThreshold = true ->
      getMoveValueColor absMove minThreshold fullThreshold <> "text-green-500"%string).
Proof.
  unfold getMoveValueColor.
  split; [|split; [|split; [|split; [done|]]]].
  - destruct (js_lt absMove minThreshold), (js_lt absMove fullThreshold);
      split; try done.
  - destruct (js_lt absMove minThreshold), (js_lt absMove fullThreshold);
      split; try done; by intros [? ?].
  - destruct (js_lt absMove minThreshold), (js_lt absMove fullThreshold);
      split; try done; by intros [? ?].
  - intros Hle.
    destruct (js_lt absMove minThreshold) eqn:Hmin; [done|].
    destruct (js_lt absMove fullThreshold) eqn:Hfull; [|done].
    exfalso.
    destruct absMove as [| |a|], minThreshold as [| |m|], fullThreshold as [| |f|];
      simpl in *; try done.
    destruct (Qlt_le_dec a m), (Qlt_le_dec a f), (Qlt_le_dec m f); try done. lra.
Qed.

Lemma getMoveValueColor_classes_witness :
  getMoveValueColor (Fin 30) (Fin 44) (Fin 17) <> "text-green-500"%string.
Proof.
  apply (proj2 (proj2 (proj2 (proj2
          (getMoveValueColor_classes (Fin 30) (Fin 44) (Fin 17)))))).
  reflexivity.
Defined.

Example getMoveValueColor_examples :
  getMoveValueColor (Fin 10) (Fin 17) (Fin 44) = "text-gray-400"%string
  /\ getMoveValueColor (Fin 17) (Fin 17) (Fin 44) = "text-green-500"%string
  /\ getMoveValueColor (Fin 44) (Fin 17) (Fin 44) = "text-emerald-400 font-semibold"%string.
Proof. by vm_compute. Qed.

(** The dot and the text of a health card always carry the same colour:
    yellow when [warning] is set, whatever [ok] says, else green when
    [ok], else red. *)
Lemma HealthCard_colours (label : string) (ok : bool) (status detail : string)
    (warning : option bool) :
  let card := HealthCard label ok status detail warning in
  hc_textColor card = ("text-" +:+ hc_dotColor card +:+ "-400")%string
  /\ (hc_dotColor card = "yellow"%string <-> warning = Some true)
  /\ (hc_dotColor card = "green"%string <-> warning <> Some true /\ ok = true)
  /\ (hc_dotColor card = "red"%string <-> warning <> Some true /\ ok = false).
Proof.
  destruct warning as [[]|], ok; simpl; repeat split; try done;
    try (by intros [? ?]); try (by intros ?; split).
Qed.

(** The four answers of [getClobWsStatus]. *)
Lemma getClobWsStatus_answers `{JsHost} (st : BotState) :
  let s := getClobWsStatus st in
  (status s = "Disconnected"%string /\ ok s = false /\ warning s = false)
  \/ (status s = "Idle"%string /\ ok s = true /\ warning s = true)
  \/ (status s = "Stale"%string /\ ok s = false /\ warning s = false)
  \/ (status s = "Connected"%string /\ ok s = true /\ warning s = false).
Proof.
  unfold getClobWsStatus.
  destruct (clob_ws_connected st); simpl; [|by left].
  destruct (current_market st); simpl; [|by right; left].
  destruct (_ || _ || _); simpl; [by right; right; left|by right; right; right].
Qed.

(** X2. [SystemHealth] never throws and renders five cards.  The CLOB card
    shows the status of [getClobWsStatus] and is green exactly when that
    status is "Connected", yellow exactly when it is "Idle", red exactly
    when it is "Disconnected" or "Stale"; no other card is ever yellow,
    and on every card the text has the colour of the dot. *)
Theorem SystemHealth_cards `{JsHost} (st : BotState) (more : HealthFields)
    (market : option MarketInfo) :
  exists rtds binance clob bot mkt,
    SystemHealth st more market = Normal [rtds; binance; clob; bot; mkt]
    /\ hc_status clob = status (getClobWsStatus st)
    /\ hc_detail clob = detail (getClobWsStatus st)
    /\ (hc_dotColor clob = "green"%string
        <-> status (getClobWsStatus st) = "Connected"%string)
    /\ (hc_dotColor clob = "yellow"%string
        <-> status (getClobWsStatus st) = "Idle"%string)
    /\ (hc_dotColor clob = "red"%string
        <-> status (getClobWsStatus st) = "Disconnected"%string
            \/ status (getClobWsStatus st) = "Stale"%string)
    /\ Forall (fun card => hc_dotColor card <> "yellow"%string) [rtds; binance; bot; mkt]
    /\ Forall (fun card =>
                 hc_textColor card = ("text-" +:+ hc_dotColor card +:+ "-400")%string)
         [rtds; binance; clob; bot; mkt].
Proof.
  unfold SystemHealth.
  assert (Hdetail : exists d,
    match rtds_seconds_since_update more with
    | Some n =>
        match safeToFixed (ANum n) 0 with
        | Normal s => Normal (s +:+ "s ago")%string
        | Throw e => Throw e
        end
    | None => Normal "—"%string
    end = Normal d).
  { destruct (rtds_seconds_since_update more) as [[| |q|]|]; simpl; eauto. }
  destruct Hdetail as [d ->].
  do 5 eexists. split; [reflexivity|].
  split; [done|]. split; [done|].
  pose proof (getClobWsStatus_answers st) as Hs. simpl in Hs.
  split; [|split; [|split; [|split]]].
  - unfold HealthCard. simpl.
    destruct Hs as [(-> & -> & ->)|[(-> & -> & ->)|[(-> & -> & ->)|(-> & -> & ->)]]];
      by simpl.
  - unfold HealthCard. simpl.
    destruct Hs as [(-> & -> & ->)|[(-> & -> & ->)|[(-> & -> & ->)|(-> & -> & ->)]]];
      by simpl.
  - unfold HealthCard. simpl.
    destruct Hs as [(-> & -> & ->)|[(-> & -> & ->)|[(-> & -> & ->)|(-> & -> & ->)]]];
      simpl; split; try done; try (by left); try (by right); by intros [|].
  - repeat constructor; unfold HealthCard; simpl.
    + by destruct (rtds_connected more && negb (rtds_stale more)).
    + by destruct (btc_price more).
    + by destruct (bot_paused more).
    + by destruct (truthy_string (slug <$> market)).
  - repeat constructor; apply HealthCard_colours.
Qed.

(** X3. Edges of the RTDS and Market cards of [SystemHealth].  The RTDS
    card says "Live", in green, exactly when the socket is connected and
    not stale; a null age prints the dash alone and a NaN age prints the
    dash followed by "s ago".  The Market card is green, "Found", exactly
    when there is a market whose slug is not empty. *)
Theorem SystemHealth_rtds_market `{JsHost} (st : BotState) (more : HealthFields)
    (market : option MarketInfo) (cards : list HealthCardView) :
  SystemHealth st more market = Normal cards ->
  exists rtds mkt,
    cards !! 0%nat = Some rtds /\ cards !! 4%nat = Some mkt
    /\ (hc_status rtds = "Live"%string
        <-> rtds_connected more = true /\ rtds_stale more = false)
    /\ (hc_dotColor rtds = "green"%string <-> hc_status rtds = "Live"%string)
    /\ (rtds_seconds_since_update more = None -> hc_detail rtds = "—"%string)
    /\ (rtds_seconds_since_update more = Some NaN -> hc_detail rtds = "—s ago"%string)
    /\ (hc_dotColor mkt = "green"%string
        <-> exists m, market = Some m /\ slug m <> ""%string)
    /\ (hc_dotColor mkt = "green"%string <-> hc_status mkt = "Found"%string).
Proof.
  unfold SystemHealth. intros Hcards.
  destruct (match rtds_seconds_since_update more with
            | Some n => _ | None => _ end) as [d|e] eqn:Hd; [|done].
  injection Hcards as <-. do 2 eexists.
  split; [reflexivity|]. split; [reflexivity|].
  unfold HealthCard. simpl.
  split; [|split; [|split; [|split; [|split]]]].
  - destruct (rtds_connected more), (rtds_stale more); simpl; split; try done;
      by intros [? ?].
  - by destruct (rtds_connected more), (rtds_stale more).
  - intros Hnull. rewrite Hnull in Hd. by injection Hd as <-.
  - intros Hnan. rewrite Hnan in Hd. simpl in Hd. by injection Hd as <-.
  - destruct market as [m|]; simpl.
    + destruct (String.eqb_spec (slug m) ""); simpl; split; try done.
      * by intros (m' & [= <-] & ?).
      * intros _. by exists m.
    + split; [done|]. by intros (m & ? & _).
  - by destruct (truthy_string (slug <$> market)).
Qed.

Lemma SystemHealth_rtds_market_witness :
  let st := {| clob_ws_connected := true; clob_ws_seconds_since_update := Some (Fin 3);
               current_market := None; accounts := ∅ |} in
  let more := {| rtds_connected := true; rtds_stale := false;
                 rtds_seconds_since_update := Some NaN;
                 btc_price := None; bot_paused := false |} in
  exists cards rtds,
    @SystemHealth example_host st more None = Normal cards
    /\ cards !! 0%nat = Some rtds /\ hc_detail rtds = "—s ago"%string.
Proof.
  intros st more.
  destruct (@SystemHealth example_host st more None) as [cards|e] eqn:Hc;
    [|by vm_compute in Hc].
  destruct (@SystemHealth_rtds_market example_host st more None cards Hc)
    as (rtds & mkt & H0 & _ & _ & _ & _ & Hnan & _).
  exists cards, rtds. split; [done|]. split; [done|]. by apply Hnan.
Defined.

(** ** The detail of the CLOB status *)

Lemma Qround_half_up_le (q : Q) (z : Z) :
  (q <= inject_Z z)%Q -> Qround_half_up q <= z.
Proof.
  intros Hq. pose proof (Qround_half_up_nearest q) as [_ Hle].
  assert (Hlt : (inject_Z (Qround_half_up q) < inject_Z (z + 1))%Q).
  { rewrite inject_Z_plus. change (inject_Z 1) with 1%Q. lra. }
  rewrite <- Zlt_Qlt in Hlt. lia.
Qed.

(** X4. A "Connected" status always comes with an age: the seconds since
    the last update are a finite number of at most 60, the detail is that
    number rounded, itself at most 60, followed by "s ago", and never the
    text "No recent update".  Nothing bounds the age from below. *)
Theorem getClobWsStatus_connected_detail `{JsHost} (st : BotState) :
  status (getClobWsStatus st) = "Connected"%string ->
  exists q : Q,
    default (Fin 0) (clob_ws_seconds_since_update st) = Fin q
    /\ (q <= 60)%Q
    /\ Qround_half_up q <= 60
    /\ detail (getClobWsStatus st)
       = (Number_toString (Fin (inject_Z (Qround_half_up q))) +:+ "s ago")%string
    /\ detail (getClobWsStatus st) <> "No recent update"%string.
Proof.
  unfold getClobWsStatus, SUSPICIOUS_SECS.
  destruct (clob_ws_connected st); simpl; [|done].
  destruct (current_market st); simpl; [|done].
  destruct (default (Fin 0) (clob_ws_seconds_since_update st)) as [| |q|];
    simpl; try done.
  destruct (Qlt_le_dec 60 q) as [|Hq]; simpl; [done|].
  destruct (Qlt_le_dec q 999); simpl; [|done]. intros _.
  exists q. split; [done|]. split; [done|].
  split; [by apply Qround_half_up_le|].
  rewrite formatSecsAgo_value. destruct (Qlt_le_dec q 600); [|lra].
  split; [done|]. apply append_s_ago_neq.
Qed.

Lemma getClobWsStatus_connected_detail_witness :
  let st := {| clob_ws_connected := true;
               clob_ws_seconds_since_update := Some (Fin (- 7));
               current_market :=
                 Some {| title := "BTC"; slug := "btc-5m"; seconds_elapsed := Fin 10 |};
               accounts := ∅ |} in
  detail (@getClobWsStatus example_host st) <> "No recent update"%string.
Proof.
  intros st.
  destruct (@getClobWsStatus_connected_detail example_host st) as (q & _ & _ & _ & _ & Hd);
    [reflexivity|exact Hd].
Defined.

Example getClobWsStatus_negative_age :
  detail (@getClobWsStatus example_host
            {| clob_ws_connected := true;
               clob_ws_seconds_since_update := Some (Fin (- 7));
               current_market :=
                 Some {| title := "BTC"; slug := "btc-5m"; seconds_elapsed := Fin 10 |};
               accounts := ∅ |})
  = "-7s ago"%string.
Proof. reflexivity. Qed.

(** ** The logs *)

Lemma take_reverse_lookup {A} (n : nat) (l : list A) (i : nat) :
  (i < n)%nat -> (i < length l)%nat ->
  take n (reverse l) !! i = l !! (length l - 1 - i)%nat.
Proof.
  intros Hn Hl. rewrite lookup_take_lt, reverse_lookup by done.
  f_equal. lia.
Qed.

(** X5. [DecisionLog] shows the 20 latest entries, newest first: as many
    entries as there are, up to 20; the entry on line [i] is the one [i]
    places before the last; reversing then cutting, as the code does, is
    cutting the last 20 then reversing; and up to 20 entries nothing is
    left out. *)
Theorem DecisionLog_shows_latest {A} (entries : list A) :
  let shown := DecisionLog_displayEntries entries in
  length shown = Nat.min 20 (length entries)
  /\ shown = reverse (slice_last 20 entries)
  /\ (forall i, (i < 20)%nat -> (i < length entries)%nat ->
        shown !! i = entries !! (length entries - 1 - i)%nat)
  /\ ((length entries <= 20)%nat -> shown ≡ₚ entries).
Proof.
  unfold DecisionLog_displayEntries, slice_last. simpl.
  split; [by rewrite length_take, length_reverse|].
  split; [apply take_reverse|].
  split; [intros i; apply take_reverse_lookup|].
  intros Hle. rewrite take_ge by (rewrite length_reverse; lia).
  apply reverse_Permutation.
Qed.

Lemma DecisionLog_shows_latest_witness :
  DecisionLog_displayEntries (seq 0 25) !! 3%nat = seq 0 25 !! 21%nat.
Proof.
  apply (proj1 (proj2 (proj2 (DecisionLog_shows_latest (seq 0 25)))) 3%nat);
    simpl; lia.
Defined.

(** X6. [ResolutionTimeoutBanner] renders nothing exactly when there is no
    notification; otherwise it lists the 10 latest, newest first: line [i]
    is the notification [i] places before the last, and the list is what
    reversing first and keeping 10 would give. *)
Theorem ResolutionTimeoutBanner_shows_latest {A} (notifications : list A) :
  (ResolutionTimeoutBanner notifications = None <-> notifications = [])
  /\ (forall shown,
        ResolutionTimeoutBanner notifications = Some shown ->
        shown = take 10 (reverse notifications)
        /\ length shown = Nat.min 10 (length notifications)
        /\ forall i, (i < length shown)%nat ->
             shown !! i = notifications !! (length notifications - 1 - i)%nat).
Proof.
  unfold ResolutionTimeoutBanner, slice_last. split.
  - destruct notifications; simpl; split; done.
  - intros shown. destruct (Nat.eqb _ 0); [done|]. intros [= <-].
    rewrite <- take_reverse.
    split; [done|]. split; [by rewrite length_take, length_reverse|].
    intros i. rewrite length_take, length_reverse. intros Hi.
    apply take_reverse_lookup; lia.
Qed.

Lemma ResolutionTimeoutBanner_shows_latest_witness :
  ResolutionTimeoutBanner (seq 0 12) = Some (reverse (seq 2 10))
  /\ length (reverse (seq 2 10)) = Nat.min 10 (length (seq 0 12)).
Proof.
  split; [reflexivity|].
  apply (proj2 (ResolutionTimeoutBanner_shows_latest (seq 0 12)) (reverse (seq 2 10))).
  reflexivity.
Defined.

(** ** Expanding the sections of a trade column *)

Lemma EventSection_rest_rendered (title : string) (count : nat)
    (events : list TradeEvent) (expanded : bool) :
  from_option sv_rest_rendered [] (EventSection title count events expanded) =
  if expanded then from_option sv_rest [] (EventSection title count events expanded)
  else [].
Proof.
  unfold EventSection. destruct (Nat.eqb count 0); simpl; [by destruct expanded|].
  destruct (drop 3 _), expanded; done.
Qed.

(** X7. A trade column has at most one section expanded.  Toggling the
    expanded section collapses it, toggling any other expands that one
    instead, so toggling twice from the collapsed state collapses again;
    the events past the preview are rendered for the section named by
    [expandedSection] and for no other. *)
Theorem TradeColumn_one_expanded (acct : AccountData) (expandedSection : option string) :
  let view := TradeColumn acct expandedSection in
  let sections :=
    [ ("wins", wins_section view); ("losses", losses_section view);
      ("entries", entries_section view);
      ("near_misses", near_misses_section view) ]%string in
  (forall name sec, (name, sec) ∈ sections ->
     from_option sv_rest_rendered [] sec =
     if bool_decide (expandedSection = Some name) then from_option sv_rest [] sec
     else [])
  /\ (forall section,
        toggleSection expandedSection section =
        if bool_decide (expandedSection = Some section) then None else Some section)
  /\ (forall section,
        toggleSection (toggleSection None section) section = None)
  /\ (forall s t, s <> t ->
        toggleSection (toggleSection (Some s) t) t = None).
Proof.
  intros view sections.
  assert (Hexp : forall name,
    match expandedSection with Some s => String.eqb s name | None => false end
    = bool_decide (expandedSection = Some name)).
  { intros name. destruct expandedSection as [s|]; [|done].
    destruct (String.eqb_spec s name) as [->|Hne].
    - by rewrite bool_decide_eq_true_2.
    - rewrite bool_decide_eq_false_2; [done|]. by intros [= ?]. }
  split; [|split; [|split]].
  - intros name sec Hin. unfold sections, view, TradeColumn in Hin.
    cbn [wins_section losses_section entries_section near_misses_section] in Hin.
    rewrite !elem_of_cons, elem_of_nil in Hin.
    destruct Hin as [[= -> ->]|[[= -> ->]|[[= -> ->]|[[= -> ->]|[]]]]];
      by rewrite EventSection_rest_rendered, Hexp.
  - intros section. unfold toggleSection. by rewrite Hexp.
  - intros section. unfold toggleSection. simpl. by rewrite String.eqb_refl.
  - intros s t Hne. unfold toggleSection.
    destruct (String.eqb_spec s t); [done|]. by rewrite String.eqb_refl.
Qed.

Lemma TradeColumn_one_expanded_witness :
  toggleSection (toggleSection (Some "wins"%string) "losses"%string) "losses"%string
  = None.
Proof.
  apply (proj2 (proj2 (proj2
    (TradeColumn_one_expanded
       {| label := "Dual (Both)"; equity_history := []; trade_events := [] |} None)))).
  discriminate.
Defined.

(** ** What the page builds from the modes *)

Lemma MODE_CONFIG_NoDup : NoDup MODE_CONFIG.
Proof.
  unfold MODE_CONFIG. repeat constructor; rewrite ?elem_of_cons, ?elem_of_nil;
    intuition discriminate.
Qed.

Lemma elem_of_Dashboard_tradeColumns accts deferred_resolutions col :
  col ∈ Dashboard_tradeColumns accts deferred_resolutions <->
  exists mode acct,
    mode ∈ MODE_CONFIG /\ accts !! mode = Some acct
    /\ col = {| tc_mode := mode; tc_acct := acct;
                tc_deferred :=
                  List.filter (fun d => String.eqb (DeferredResolution.mode d) mode)
                    deferred_resolutions |}.
Proof.
  unfold Dashboard_tradeColumns. rewrite list_elem_of_omap. split.
  - intros (mode & Hmode & Hcol).
    destruct (accts !! mode) as [acct|] eqn:Hacct; [|done].
    injection Hcol as <-. by exists mode, acct.
  - intros (mode & acct & Hmode & Hacct & ->). exists mode. by rewrite Hacct.
Qed.

(** X8. The page gives each configured mode that has an account one trade
    column, and a waiting resolution goes to the column of its mode and to
    no other; a waiting resolution whose mode is not configured, or has no
    account, is shown in no column. *)
Theorem Dashboard_tradeColumns_routing (accts : gmap string AccountData)
    (deferred_resolutions : list DeferredResolution.t) :
  let cols := Dashboard_tradeColumns accts deferred_resolutions in
  (forall col d, col ∈ cols ->
     d ∈ tc_deferred col <->
     d ∈ deferred_resolutions /\ DeferredResolution.mode d = tc_mode col)
  /\ (forall col1 col2, col1 ∈ cols -> col2 ∈ cols ->
        tc_mode col1 = tc_mode col2 -> col1 = col2)
  /\ (forall col, col ∈ cols -> accts !! tc_mode col = Some (tc_acct col))
  /\ (forall d,
        (exists col, col ∈ cols /\ d ∈ tc_deferred col) <->
        d ∈ deferred_resolutions
        /\ DeferredResolution.mode d ∈ MODE_CONFIG
        /\ is_Some (accts !! DeferredResolution.mode d)).
Proof.
  intros cols.
  assert (Hfilter : forall mode d,
    d ∈ List.filter (fun d => String.eqb (DeferredResolution.mode d) mode)
          deferred_resolutions
    <-> d ∈ deferred_resolutions /\ DeferredResolution.mode d = mode).
  { intros mode d. by rewrite !list_elem_of_In, filter_In, String.eqb_eq. }
  split; [|split; [|split]].
  - intros col d (mode & acct & _ & _ & ->)%elem_of_Dashboard_tradeColumns.
    apply Hfilter.
  - intros col1 col2 (m1 & a1 & _ & H1 & ->)%elem_of_Dashboard_tradeColumns
      (m2 & a2 & _ & H2 & ->)%elem_of_Dashboard_tradeColumns. simpl.
    intros ->. by simplify_eq.
  - by intros col (mode & acct & _ & Hacct & ->)%elem_of_Dashboard_tradeColumns.
  - intros d. split.
    + intros (col & (mode & acct & Hmode & Hacct & ->)%elem_of_Dashboard_tradeColumns
              & Hd).
      simpl in Hd. apply Hfilter in Hd as [Hd <-]. by rewrite Hacct.
    + intros (Hd & Hmode & [acct Hacct]).
      eexists. split.
      * apply elem_of_Dashboard_tradeColumns. by eexists _, acct.
      * simpl. by apply Hfilter.
Qed.

Lemma Dashboard_tradeColumns_routing_witness :
  let acct := {| label := "Dual (Both)"; equity_history := []; trade_events := [] |} in
  let d m := {| DeferredResolution.slug := "btc-5m"; DeferredResolution.mode := m;
                DeferredResolution.strategy := "momentum";
                DeferredResolution.side := "YES";
                DeferredResolution.entry_price := Fin (1 # 2);
                DeferredResolution.size_usdc := Fin 50;
                DeferredResolution.queued_at := Fin 1700000000;
                DeferredResolution.check_after := Fin 1700000300 |} in
  let col := {| tc_mode := "dual"; tc_acct := acct;
                tc_deferred := [d "dual"%string] |} in
  d "dual"%string ∈ [d "dual"%string; d "binance_only"%string]
  /\ DeferredResolution.mode (d "dual"%string) = tc_mode col.
Proof.
  intros acct d col.
  apply (proj1 (Dashboard_tradeColumns_routing {[ "dual"%string := acct ]}
                  [d "dual"%string; d "binance_only"%string]) col (d "dual"%string)).
  - apply list_elem_of_In. vm_compute. by left.
  - apply list_elem_of_In. simpl. by left.
Defined.

Example Dashboard_tradeColumns_drops :
  let acct := {| label := "Dual (Both)"; equity_history := []; trade_events := [] |} in
  let d m := {| DeferredResolution.slug := "btc-5m"; DeferredResolution.mode := m;
                DeferredResolution.strategy := "momentum";
                DeferredResolution.side := "YES";
                DeferredResolution.entry_price := Fin (1 # 2);
                DeferredResolution.size_usdc := Fin 50;
                DeferredResolution.queued_at := Fin 1700000000;
                DeferredResolution.check_after := Fin 1700000300 |} in
  Dashboard_tradeColumns {[ "dual"%string := acct ]}
    [d "dual"%string; d "binance_only"%string]
  = [ {| tc_mode := "dual"; tc_acct := acct; tc_deferred := [d "dual"%string] |} ].
Proof. by vm_compute. Qed.

Lemma shown_modes_cards (accts : gmap string AccountData) (modes : list string) :
  (omap (fun mode => (fun acct => (mode, acct)) <$> accts !! mode) modes).*1
  = List.filter (fun mode => bool_decide (is_Some (accts !! mode))) modes.
Proof.
  induction modes as [|mode modes IH]; [done|]. csimpl.
  destruct (accts !! mode) as [acct|]; csimpl; by rewrite IH.
Qed.

Lemma shown_modes_columns (accts : gmap string AccountData)
    (deferred_resolutions : list DeferredResolution.t) (modes : list string) :
  tc_mode <$>
    omap (fun mode =>
            match accts !! mode with
            | None => None
            | Some acct =>
                Some {| tc_mode := mode; tc_acct := acct;
                        tc_deferred :=
                          List.filter
                            (fun d => String.eqb (DeferredResolution.mode d) mode)
                            deferred_resolutions |}
            end) modes
  = List.filter (fun mode => bool_decide (is_Some (accts !! mode))) modes.
Proof.
  induction modes as [|mode modes IH]; [done|]. csimpl.
  destruct (accts !! mode) as [acct|]; csimpl; by rewrite IH.
Qed.

Lemma shown_accounts (accts : gmap string AccountData)
    (deferred_resolutions : list DeferredResolution.t) (modes : list string) :
  tc_acct <$>
    omap (fun mode =>
            match accts !! mode with
            | None => None
            | Some acct =>
                Some {| tc_mode := mode; tc_acct := acct;
                        tc_deferred :=
                          List.filter
                            (fun d => String.eqb (DeferredResolution.mode d) mode)
                            deferred_resolutions |}
            end) modes
  = (omap (fun mode => (fun acct => (mode, acct)) <$> accts !! mode) modes).*2.
Proof.
  induction modes as [|mode modes IH]; [done|]. csimpl.
  destruct (accts !! mode) as [acct|]; csimpl; by rewrite IH.
Qed.

(** X9. The account cards, the trade columns and the series of the chart
    cover the same modes: the configured modes that have an account, in
    the order of [MODE_CONFIG]; each card and column carries the account
    stored under its mode, and an account stored under any other key is
    shown by none of the three. *)
Theorem views_cover_same_modes (accts : gmap string AccountData)
    (deferred_resolutions : list DeferredResolution.t) (r : ChartRefs) :
  let cards := AccountPerformance_cards accts in
  let cols := Dashboard_tradeColumns accts deferred_resolutions in
  let series := seriesRefs (mountEffect true accts r).1 in
  cards.*1 = List.filter (fun mode => bool_decide (is_Some (accts !! mode))) MODE_CONFIG
  /\ tc_mode <$> cols = cards.*1
  /\ (tc_acct <$> cols) = cards.*2
  /\ (forall mode, is_Some (series !! mode) <-> mode ∈ cards.*1)
  /\ (forall mode acct, (mode, acct) ∈ cards -> accts !! mode = Some acct)
  /\ (forall mode, mode ∉ MODE_CONFIG ->
        (mode ∉ cards.*1) /\ series !! mode = None).
Proof.
  intros cards cols series.
  assert (Hcards : cards.*1 =
    List.filter (fun mode => bool_decide (is_Some (accts !! mode))) MODE_CONFIG)
    by (unfold cards, AccountPerformance_cards; apply shown_modes_cards).
  assert (Hin : forall mode,
    mode ∈ cards.*1 <-> mode ∈ MODE_CONFIG /\ is_Some (accts !! mode)).
  { intros mode. rewrite Hcards, !list_elem_of_In, filter_In.
    by rewrite bool_decide_eq_true. }
  destruct (mountEffect_creates accts r) as (_ & _ & Hseries & _).
  split; [done|]. split; [|split; [|split; [|split]]].
  - rewrite Hcards. unfold cols, Dashboard_tradeColumns. apply shown_modes_columns.
  - unfold cols, cards, Dashboard_tradeColumns, AccountPerformance_cards.
    apply shown_accounts.
  - intros mode. unfold series. by rewrite Hin, Hseries.
  - intros mode acct (m & Hm & Hc)%list_elem_of_omap.
    destruct (accts !! m) eqn:Hacct; [|done]. by simplify_eq/=.
  - intros mode Hmode. split.
    + rewrite Hin. tauto.
    + apply eq_None_not_Some. unfold series. rewrite Hseries. tauto.
Qed.

Lemma views_cover_same_modes_witness :
  let acct := {| label := "Legacy"; equity_history := []; trade_events := [] |} in
  seriesRefs (mountEffect true {[ "legacy"%string := acct ]} EquityChart_init).1
    !! "legacy"%string = None.
Proof.
  intros acct.
  apply (proj2 (proj2 (proj2 (proj2 (proj2
    (views_cover_same_modes {[ "legacy"%string := acct ]} [] EquityChart_init)))))
    "legacy"%string).
  unfold MODE_CONFIG. rewrite !elem_of_cons, elem_of_nil. intuition discriminate.
Defined.

(** ** Prices and moves *)

Lemma or_zero_value (x : JsArg) :
  match x with
  | ANum (Fin q) => exists w, or_zero x = Fin w /\ (w == q)%Q
  | ANum PosInf => or_zero x = PosInf
  | ANum NegInf => or_zero x = NegInf
  | _ => or_zero x = Fin 0
  end.
Proof.
  destruct x as [| |[| |q|]]; simpl; try done.
  unfold Qis_zero. destruct (Qeq_dec q 0) as [E|_].
  - exists 0%Q. split; [done|]. by symmetry.
  - by exists q.
Qed.

(** X10. The spread shown by the page is never negative; for two finite
    prices it is the absolute value of their difference; a feed that is
    missing, or NaN, counts as a price of 0, so that with one feed down
    the spread is the whole price of the other. *)
Theorem spread_properties (btc chainlink : option JsNum) :
  js_lt (spread btc chainlink) (Fin 0) = false
  /\ (forall p q, btc = Some (Fin p) -> chainlink = Some (Fin q) ->
        exists w, spread btc chainlink = Fin w /\ (w == Qabs (p - q))%Q)
  /\ (forall p, btc = Some (Fin p) -> chainlink = None ->
        exists w, spread btc chainlink = Fin w /\ (w == Qabs p)%Q)
  /\ spread (Some NaN) chainlink = spread None chainlink
  /\ spread btc (Some NaN) = spread btc None.
Proof.
  split; [|split; [|split; [|done]]].
  - unfold spread. destruct (js_sub _ _) as [| |d|]; simpl; try done.
    destruct (Qlt_le_dec (Qabs d) 0) as [Hneg|]; [|done].
    pose proof (Qabs_nonneg d). lra.
  - intros p q -> ->. unfold spread. cbn [from_option].
    destruct (or_zero_value (ANum (Fin p))) as (w1 & -> & E1).
    destruct (or_zero_value (ANum (Fin q))) as (w2 & -> & E2).
    cbn [js_sub Math_abs]. eexists. split; [done|]. apply Qabs_wd. lra.
  - intros p -> ->. unfold spread. cbn [from_option].
    destruct (or_zero_value (ANum (Fin p))) as (w1 & -> & E1).
    cbn [js_sub Math_abs]. eexists. split; [done|]. apply Qabs_wd. lra.
Qed.

Lemma spread_properties_witness :
  exists w, spread (Some (Fin 97000)) None = Fin w /\ (w == Qabs 97000)%Q.
Proof.
  by apply (proj1 (proj2 (proj2 (spread_properties (Some (Fin 97000)) None))) 97000%Q).
Defined.

Lemma passes_threshold_or_zero (move : JsNum) :
  js_ge (Math_abs (or_zero (ANum move))) THRESHOLD = js_ge (Math_abs move) THRESHOLD.
Proof.
  unfold THRESHOLD. destruct move as [| |q|]; try done.
  destruct (or_zero_value (ANum (Fin q))) as (w & -> & E). simpl.
  destruct (Qlt_le_dec (Qabs w) 26) as [H1|H1], (Qlt_le_dec (Qabs q) 26) as [H2|H2];
    try done; rewrite E in H1; lra.
Qed.

(** X11. The three move cards never throw.  A move card shows the check
    mark exactly when the absolute value of its move reaches [THRESHOLD], a
    NaN move counting as 0 and failing; it carries the plus sign exactly
    when the move, so read, is at least 0; and the dual card says "YES"
    exactly when both move cards show the check mark. *)
Theorem Dashboard_moveCards_consistent `{JsHost} (btc_move chainlink_btc_move : JsNum) :
  exists bn cl dual,
    Dashboard_moveCards btc_move chainlink_btc_move = Normal [bn; cl; dual]
    /\ (mc_icon bn = "✅"%string <-> js_ge (Math_abs btc_move) THRESHOLD = true)
    /\ (mc_icon cl = "✅"%string <-> js_ge (Math_abs chainlink_btc_move) THRESHOLD = true)
    /\ (mc_value dual = "YES"%string
        <-> mc_icon bn = "✅"%string /\ mc_icon cl = "✅"%string)
    /\ (mc_icon dual = "✅"%string <-> mc_value dual = "YES"%string)
    /\ mc_value bn =
       ("$" +:+ (if js_ge (or_zero (ANum btc_move)) (Fin 0) then "+" else "")
            +:+ Number_toFixed (or_zero (ANum btc_move)) 0)%string
    /\ (btc_move = NaN -> mc_icon bn = "❌"%string
          /\ mc_value bn = ("$+" +:+ Number_toFixed (Fin 0) 0)%string).
Proof.
  unfold Dashboard_moveCards, moveCard, dualCard, toFixed.
  change ((0 <=? 0) && (0 <=? 100)) with true. cbv iota.
  do 3 eexists. split; [reflexivity|]. cbn [mc_icon mc_value].
  rewrite !passes_threshold_or_zero.
  split; [by destruct (js_ge (Math_abs btc_move) THRESHOLD)|].
  split; [by destruct (js_ge (Math_abs chainlink_btc_move) THRESHOLD)|].
  split.
  { destruct (js_ge (Math_abs btc_move) THRESHOLD),
      (js_ge (Math_abs chainlink_btc_move) THRESHOLD); simpl; split; try done;
      by intros [? ?]. }
  split.
  { by destruct (js_ge (Math_abs btc_move) THRESHOLD),
      (js_ge (Math_abs chainlink_btc_move) THRESHOLD). }
  split; [done|]. intros ->. by vm_compute.
Qed.

Lemma Dashboard_moveCards_consistent_witness :
  exists bn cl dual,
    @Dashboard_moveCards example_host NaN (Fin 30) = Normal [bn; cl; dual]
    /\ mc_icon bn = "❌"%string /\ mc_value bn = "$+0"%string.
Proof.
  destruct (@Dashboard_moveCards_consistent example_host NaN (Fin 30))
    as (bn & cl & dual & Hcards & _ & _ & _ & _ & _ & Hnan).
  exists bn, cl, dual. split; [exact Hcards|]. by apply Hnan.
Defined.

(** X12. The seconds a waiting resolution still has to wait are never
    negative, and are 0 from the moment [check_after] is reached; this for
    every [check_after] but NaN, the clock being a finite number. *)
Theorem secsToCheck_nonneg (d : DeferredResolution.t) (now : Q) :
  json_number (DeferredResolution.check_after d) ->
  js_le (Fin 0) (secsToCheck d (Fin now)) = true
  /\ (js_le (DeferredResolution.check_after d) (Fin (now / 1000)) = true ->
      js_eqb (secsToCheck d (Fin now)) (Fin 0) = true).
Proof.
  unfold json_number, secsToCheck. intros Hjson.
  assert (Hdiv : js_div (Fin now) (Fin 1000) = Fin (now / 1000)).
  { unfold js_div, Qis_zero. destruct (Qeq_dec 1000 0) as [E|_]; [|done].
    exfalso. revert E. unfold Qeq. simpl. lia. }
  rewrite Hdiv.
  destruct (DeferredResolution.check_after d) as [| |c|]; [done| | |]; simpl;
    try done.
  unfold Math_max. simpl.
  destruct (Qlt_le_dec 0 (c - now / 1000)); simpl.
  - destruct (Qlt_le_dec (c - now / 1000) 0); [lra|]. split; [done|].
    destruct (Qlt_le_dec (now / 1000) c); [done|lra].
  - split; [done|]. intros _. by destruct (Qeq_dec 0 0) as [|[]].
Qed.

Lemma secsToCheck_nonneg_witness :
  let d := {| DeferredResolution.slug := "btc-5m"; DeferredResolution.mode := "dual";
              DeferredResolution.strategy := "momentum";
              DeferredResolution.side := "YES";
              DeferredResolution.entry_price := Fin (1 # 2);
              DeferredResolution.size_usdc := Fin 50;
              DeferredResolution.queued_at := Fin 1700000000;
              DeferredResolution.check_after := Fin 1700000300 |} in
  js_le (Fin 0) (secsToCheck d (Fin 1700000400000)) = true.
Proof.
  intros d.
  assert (Hjson : json_number (DeferredResolution.check_after d)) by discriminate.
  exact (proj1 (secsToCheck_nonneg d 1700000400000 Hjson)).
Defined.

(** ** Uptime, and the earlier versions of the helpers *)

Lemma Qfloor_unique (x : Q) (z : Z) :
  (inject_Z z <= x)%Q -> (x < inject_Z (z + 1))%Q -> Qfloor x = z.
Proof.
  intros Hle Hlt.
  pose proof (Qfloor_le x) as H1. pose proof (Qlt_floor x) as H2.
  assert (Ha : (inject_Z z < inject_Z (Qfloor x + 1))%Q) by lra.
  assert (Hb : (inject_Z (Qfloor x) < inject_Z (z + 1))%Q) by lra.
  rewrite <- Zlt_Qlt in Ha, Hb. lia.
Qed.

Lemma Qfloor_div_const (q : Q) (c : Z) :
  0 < c -> Qfloor (q / inject_Z c) = Qfloor q / c.
Proof.
  intros Hc.
  pose proof (Qfloor_le q) as H1. pose proof (Qlt_floor q) as H2.
  pose proof (Z.div_mod (Qfloor q) c ltac:(lia)) as Hdm.
  pose proof (Z.mod_pos_bound (Qfloor q) c Hc) as Hr.
  assert (Hcq : (0 < inject_Z c)%Q) by (change 0%Q with (inject_Z 0); by rewrite <- Zlt_Qlt).
  assert (Hw : (q == inject_Z c * (q / inject_Z c))%Q) by (field; lra).
  revert Hw. generalize (q / inject_Z c)%Q. intros w Hw.
  apply (f_equal inject_Z) in Hdm. rewrite inject_Z_plus, inject_Z_mult in Hdm.
  assert (Hr1 : (0 <= inject_Z (Qfloor q mod c))%Q)
    by (change 0%Q with (inject_Z 0); rewrite <- Zle_Qle; lia).
  assert (Hr2 : (inject_Z (Qfloor q mod c) + 1 <= inject_Z c)%Q).
  { change 1%Q with (inject_Z 1). rewrite <- inject_Z_plus, <- Zle_Qle. lia. }
  rewrite inject_Z_plus in H2. change (inject_Z 1) with 1%Q in H2.
  apply Qfloor_unique.
  - apply (Qmult_le_l _ _ (inject_Z c)); [done|]. rewrite <- Hw.
    rewrite Hdm in H1. lra.
  - apply (Qmult_lt_l _ _ (inject_Z c)); [done|]. rewrite <- Hw.
    rewrite inject_Z_plus. change (inject_Z 1) with 1%Q.
    rewrite Hdm in H2. lra.
Qed.

Lemma Qfloor_sub_Z (q : Q) (z : Z) : Qfloor (q - inject_Z z) = Qfloor q - z.
Proof.
  pose proof (Qfloor_le q) as H1. pose proof (Qlt_floor q) as H2.
  rewrite inject_Z_plus in H2. change (inject_Z 1) with 1%Q in H2.
  apply Qfloor_unique.
  - unfold Z.sub. rewrite inject_Z_plus, inject_Z_opp. lra.
  - replace (Qfloor q - z + 1) with (Qfloor q + 1 - z) by lia.
    unfold Z.sub. rewrite !inject_Z_plus, inject_Z_opp. change (inject_Z 1) with 1%Q. lra.
Qed.

Lemma js_div_const (q : Q) (c : Z) :
  0 < c -> js_div (Fin q) (Fin (inject_Z c)) = Fin (q / inject_Z c).
Proof.
  intros Hc. unfold js_div, Qis_zero.
  destruct (Qeq_dec (inject_Z c) 0) as [E|_]; [|done].
  exfalso. revert E. unfold Qeq. simpl. lia.
Qed.

Lemma js_mod_const (q : Q) (c : Z) :
  0 < c -> (0 < q)%Q ->
  js_mod (Fin q) (Fin (inject_Z c)) = Fin (q - inject_Z (c * (Qfloor q / c))).
Proof.
  intros Hc Hq. unfold js_mod, Qis_zero.
  destruct (Qeq_dec (inject_Z c) 0) as [E|_].
  { exfalso. revert E. unfold Qeq. simpl. lia. }
  unfold Qtrunc.
  assert (Hcq : (0 < inject_Z c)%Q) by (change 0%Q with (inject_Z 0); by rewrite <- Zlt_Qlt).
  destruct (Qlt_le_dec (q / inject_Z c) 0) as [Hneg|_].
  { exfalso. assert (0 < q / inject_Z c)%Q; [|lra].
    apply Qlt_shift_div_l; [done|lra]. }
  by rewrite Qfloor_div_const, inject_Z_mult.
Qed.

Lemma Math_floor_mod_div (q : Q) (c k : Z) :
  0 < c -> 0 < k -> (0 < q)%Q ->
  Math_floor (js_div (js_mod (Fin q) (Fin (inject_Z c))) (Fin (inject_Z k)))
  = Fin (inject_Z ((Qfloor q mod c) / k)).
Proof.
  intros Hc Hk Hq. rewrite js_mod_const, js_div_const by done. cbn [Math_floor].
  rewrite Qfloor_div_const, Qfloor_sub_Z by done.
  do 3 f_equal. rewrite Z.mod_eq by lia. done.
Qed.

Lemma Math_floor_mod (q : Q) (c : Z) :
  0 < c -> (0 < q)%Q ->
  Math_floor (js_mod (Fin q) (Fin (inject_Z c))) = Fin (inject_Z (Qfloor q mod c)).
Proof.
  intros Hc Hq. rewrite js_mod_const by done. cbn [Math_floor].
  rewrite Qfloor_sub_Z. do 2 f_equal. rewrite Z.mod_eq by lia. done.
Qed.

Lemma js_gt_inject_Z (z : Z) : js_gt (Fin (inject_Z z)) (Fin 0) = (0 <? z).
Proof.
  unfold js_gt. simpl. destruct (Qlt_le_dec 0 (inject_Z z)) as [H|H];
    change 0%Q with (inject_Z 0) in H.
  - rewrite <- Zlt_Qlt in H. symmetry. by apply Z.ltb_lt.
  - rewrite <- Zle_Qle in H. symmetry. apply Z.ltb_ge. lia.
Qed.

(** X13. For a finite positive number of seconds [fmtUptime] prints the
    days, hours, minutes and seconds of its integer part: hours below 24,
    minutes and seconds below 60, which together make up the integer part
    again.  With days it prints days, hours and minutes and leaves the
    seconds out; without days but with hours it prints hours, minutes and
    seconds; otherwise minutes and seconds. *)
Theorem fmtUptime_parts `{JsHost} (q : Q) :
  (0 < q)%Q ->
  let n := Qfloor q in
  let days := n / 86400 in
  let hrs := (n mod 86400) / 3600 in
  let mins := (n mod 3600) / 60 in
  let secs := n mod 60 in
  let str z := Number_toString (Fin (inject_Z z)) in
  fmtUptime (ANum (Fin q)) =
    (if (0 <? days)%Z
     then str days +:+ "d " +:+ str hrs +:+ "h " +:+ str mins +:+ "m"
     else if (0 <? hrs)%Z
     then str hrs +:+ "h " +:+ str mins +:+ "m " +:+ str secs +:+ "s"
     else str mins +:+ "m " +:+ str secs +:+ "s")%string
  /\ 0 <= days /\ 0 <= hrs < 24 /\ 0 <= mins < 60 /\ 0 <= secs < 60
  /\ days * 86400 + hrs * 3600 + mins * 60 + secs = n.
Proof.
  intros Hq n days hrs mins secs str.
  assert (Hn : 0 <= n).
  { unfold n. change 0 with (Qfloor 0). apply Qfloor_resp_le. lra. }
  split.
  - unfold fmtUptime. cbn [eq_null typeof_not_number Number_isNaN isNaN ToNumber orb].
    assert (Hle : js_le (Fin q) (Fin 0) = false).
    { simpl. destruct (Qlt_le_dec 0 q); [done|lra]. }
    rewrite Hle.
    change (Fin 86400) with (Fin (inject_Z 86400)).
    change (Fin 3600) with (Fin (inject_Z 3600)).
    change (Fin 60) with (Fin (inject_Z 60)).
    rewrite !Math_floor_mod_div, Math_floor_mod by (done || lia).
    rewrite js_div_const by lia. cbn [Math_floor].
    rewrite Qfloor_div_const by lia. rewrite !js_gt_inject_Z. done.
  - unfold days, hrs, mins, secs. clearbody n. Z.div_mod_to_equations. lia.
Qed.

Lemma fmtUptime_parts_witness :
  @fmtUptime example_host (ANum (Fin 93784)) = "1d 2h 3m"%string.
Proof.
  rewrite (proj1 (@fmtUptime_parts example_host 93784 ltac:(reflexivity))).
  reflexivity.
Defined.

(** X14. The guards added to [fmtUptime] and [fmtUsd] only change what
    happens on NaN: on every other number (and, for [fmtUsd], on null and
    undefined) they answer what the earlier versions answered, while on
    NaN the earlier versions printed the host's text for NaN and the
    current ones answer "0s" and the dash. *)
Theorem helpers_agree_with_earlier `{JsHost} (n : JsNum) (a : JsArg) :
  (isNaN n = false -> fmtUptime (ANum n) = fmtUptime_v1 n)
  /\ (Number_isNaN a = false -> fmtUsd a = fmtUsd_v1 a)
  /\ fmtUptime (ANum NaN) = "0s"%string
  /\ fmtUptime_v1 NaN
     = (Number_toString NaN +:+ "m " +:+ Number_toString NaN +:+ "s")%string
  /\ fmtUsd (ANum NaN) = Normal "—"%string
  /\ fmtUsd_v1 (ANum NaN) = Normal ("$" +:+ Number_toLocaleString_en_US_2 NaN)%string.
Proof.
  split; [|split; [|done]].
  - intros Hn. unfold fmtUptime, fmtUptime_v1.
    cbn [eq_null typeof_not_number Number_isNaN ToNumber orb]. by rewrite Hn.
  - intros Ha. unfold fmtUsd, fmtUsd_v1. rewrite Ha.
    destruct a as [| |x]; done.
Qed.

Lemma helpers_agree_with_earlier_witness :
  @fmtUptime example_host (ANum (Fin 125)) = @fmtUptime_v1 example_host (Fin 125).
Proof.
  apply (proj1 (@helpers_agree_with_earlier example_host (Fin 125) ANull)).
  reflexivity.
Defined.

(** X15. On a state whose age is a number, the earlier [getClobWsStatus]
    does not throw, and the current one gives the same status, [ok] and
    [warning] whenever the age is finite or +Infinity; for a connected
    socket with a market they differ exactly on NaN and -Infinity, which
    the earlier version rated "Connected" and the current one rates
    "Stale". *)
Theorem getClobWsStatus_agrees_with_earlier `{JsHost} (st : BotState) (n : JsNum) :
  clob_ws_seconds_since_update st = Some n ->
  exists s1,
    getClobWsStatus_v1 st = Normal s1
    /\ (n <> NaN -> n <> NegInf ->
        status s1 = status (getClobWsStatus st)
        /\ ok s1 = ok (getClobWsStatus st)
        /\ warning s1 = warning (getClobWsStatus st))
    /\ (clob_ws_connected st = true -> current_market st <> None ->
        n = NaN \/ n = NegInf ->
        status s1 = "Connected"%string
        /\ status (getClobWsStatus st) = "Stale"%string).
Proof.
  intros Hn. unfold getClobWsStatus_v1, getClobWsStatus, SUSPICIOUS_SECS, toFixed.
  rewrite Hn. change ((0 <=? 0) && (0 <=? 100)) with true. cbv iota.
  destruct (clob_ws_connected st); cbn [negb];
    [|eexists; split; [done|]; split; done].
  destruct (current_market st); cbn [negb];
    [|eexists; split; [done|]; split; done].
  destruct n as [| |q|]; simpl.
  - eexists. split; [done|]. split; done.
  - eexists. split; [done|]. split; done.
  - destruct (Qlt_le_dec 60 q), (Qlt_le_dec q 999); simpl;
      try (eexists; split; [done|]; split; [done|]; by intros _ _ [|]).
    lra.
  - eexists. split; [done|]. split; [done|]. by intros _ _ [|].
Qed.

Lemma getClobWsStatus_agrees_with_earlier_witness :
  let st := {| clob_ws_connected := true;
               clob_ws_seconds_since_update := Some NaN;
               current_market :=
                 Some {| title := "BTC"; slug := "btc-5m"; seconds_elapsed := Fin 10 |};
               accounts := ∅ |} in
  exists s1,
    @getClobWsStatus_v1 example_host st = Normal s1
    /\ status s1 = "Connected"%string
    /\ status (@getClobWsStatus example_host st) = "Stale"%string.
Proof.
  intros st.
  destruct (@getClobWsStatus_agrees_with_earlier example_host st NaN eq_refl)
    as (s1 & Hs1 & _ & Hdiff).
  exists s1. split; [exact Hs1|]. apply Hdiff; [reflexivity|discriminate|by left].
Defined.

(** ** More on downsampling and the series data *)

Lemma downsample_idx_in_range (len maxPoints i : nat) :
  (maxPoints < len)%nat -> (i < maxPoints)%nat ->
  (downsample_idx len maxPoints i < len)%nat.
Proof.
  intros Hlen Hi. destruct (decide (2 <= maxPoints)%nat) as [Hm|Hm].
  - by apply downsample_idx_lt_len.
  - assert (i = maxPoints - 1)%nat as -> by lia.
    rewrite downsample_idx_last. lia.
Qed.

Lemma sublist_StronglySorted {A} (R : A -> A -> Prop) (l1 l2 : list A) :
  sublist l1 l2 -> StronglySorted R l2 -> StronglySorted R l1.
Proof.
  induction 1 as [|x l1 l2 Hsub IH|x l1 l2 Hsub IH]; intros Hs; [done| |].
  - apply StronglySorted_inv in Hs as [Hs Hx]. constructor; [by apply IH|].
    rewrite Forall_forall in Hx |- *. intros y Hy. apply Hx.
    by eapply elem_of_sublist.
  - apply StronglySorted_inv in Hs as [Hs _]. by apply IH.
Qed.

Lemma downsample_sublist {T} `{!Inhabited T} (data : list T) (maxPoints : nat) :
  (2 <= maxPoints)%nat -> sublist (downsample data maxPoints) data.
Proof.
  intros Hm. destruct (Nat.le_gt_cases (length data) maxPoints) as [Hle|Hlt].
  - by rewrite downsample_short.
  - assert (Hout : downsample data maxPoints =
      (fun i => data !!! i) <$> (downsample_idx (length data) maxPoints <$> seq 0 maxPoints)).
    { rewrite downsample_long by done. by rewrite <- list_fmap_compose. }
    rewrite Hout.
    apply (sublist_of_increasing_reads data _ 0).
    + apply StronglySorted_fmap_seq. intros i j ? ? ?.
      apply downsample_idx_strict; lia.
    + apply Forall_fmap, Forall_forall. intros i Hi%elem_of_seq. simpl.
      split; [lia|]. apply downsample_idx_lt_len; lia.
Qed.

(** X16. Downsampling what is already downsampled changes nothing; every
    point of the output is a point of the input, whatever the ceiling;
    with a ceiling of 0 nothing is kept and with a ceiling of 1 only the
    last point. *)
Theorem downsample_idempotent {T} `{!Inhabited T} (data : list T) (maxPoints : nat) :
  downsample (downsample data maxPoints) maxPoints = downsample data maxPoints
  /\ (forall x, x ∈ downsample data maxPoints -> x ∈ data)
  /\ downsample data 0 = []
  /\ downsample data 1 = option_list (last data).
Proof.
  split; [|split; [|split]].
  - apply downsample_short, downsample_length_le.
  - intros x. destruct (Nat.le_gt_cases (length data) maxPoints) as [Hle|Hlt].
    + by rewrite downsample_short.
    + rewrite downsample_long by done.
      intros (i & -> & Hi%elem_of_seq)%list_elem_of_fmap.
      apply list_elem_of_lookup_total_2, downsample_idx_in_range; lia.
  - destruct data as [|x data]; [done|]. by rewrite downsample_long by (simpl; lia).
  - destruct (Nat.le_gt_cases (length data) 1) as [Hle|Hlt].
    + rewrite downsample_short by done. by destruct data as [|x [|y data]]; [| |simpl in Hle; lia].
    + rewrite downsample_long by done. cbn [seq fmap list_fmap].
      rewrite downsample_idx_last, last_lookup.
      replace (pred (length data)) with (length data - 1)%nat by lia.
      destruct (lookup_lt_is_Some_2 data (length data - 1)) as [x Hx]; [lia|].
      by rewrite Hx, (list_lookup_total_correct _ _ _ Hx).
Qed.

(** X17. Whatever the length of a history with JSON timestamps, the array
    given to [setData] is in nondecreasing time order, is a subsequence of
    the sorted mapped history, has the length of the history capped at
    [MAX_CHART_POINTS], begins with the earliest point and ends with the
    latest, and holds nothing but points of the history. *)
Theorem series_data_always_sorted (history : list EquityPoint) :
  Forall (fun pt => json_number (ts pt)) history ->
  let sorted := Array_sort by_time (to_point <$> history) in
  StronglySorted (fun a b => js_le (p_time a) (p_time b) = true) (series_data history)
  /\ sublist (series_data history) sorted
  /\ length (series_data history) = Nat.min (length history) MAX_CHART_POINTS
  /\ head (series_data history) = head sorted
  /\ last (series_data history) = last sorted
  /\ (forall p, p ∈ series_data history -> exists pt, pt ∈ history /\ p = to_point pt).
Proof.
  intros Hjson sorted.
  assert (Hm : (2 <= MAX_CHART_POINTS)%nat) by (unfold MAX_CHART_POINTS; lia).
  assert (Hsub : sublist (series_data history) sorted)
    by (by apply downsample_sublist).
  assert (Hsorted : StronglySorted (fun a b => js_le (p_time a) (p_time b) = true) sorted).
  { apply Array_sort_by_time_sorted, Forall_fmap.
    eapply Forall_impl; [exact Hjson|]. by intros [t e]. }
  assert (Hlen : length sorted = length history).
  { unfold sorted. by rewrite Array_sort_length, length_fmap. }
  split; [by eapply sublist_StronglySorted|]. split; [done|].
  unfold series_data. fold sorted.
  destruct (Nat.le_gt_cases (length sorted) MAX_CHART_POINTS) as [Hle|Hlt].
  - rewrite downsample_short by done.
    split; [lia|]. split; [done|]. split; [done|].
    intros p Hp. unfold sorted in Hp. rewrite Array_sort_Permutation in Hp.
    apply list_elem_of_fmap in Hp as (pt & -> & Hpt). by exists pt.
  - split.
    { rewrite downsample_long by done. rewrite length_fmap, length_seq. lia. }
    assert (Hout : downsample sorted MAX_CHART_POINTS =
      (fun i => sorted !!! i)
        <$> (downsample_idx (length sorted) MAX_CHART_POINTS <$> seq 0 MAX_CHART_POINTS)).
    { rewrite downsample_long by done. by rewrite <- list_fmap_compose. }
    split; [|split].
    + rewrite Hout, !head_lookup, !list_lookup_fmap.
      replace (seq 0 MAX_CHART_POINTS !! 0%nat) with (Some 0%nat)
        by (symmetry; apply lookup_seq; lia).
      simpl. rewrite downsample_idx_0 by lia.
      symmetry. apply list_lookup_lookup_total_lt. lia.
    + rewrite Hout, !fmap_last.
      replace (last (seq 0 MAX_CHART_POINTS)) with (Some (MAX_CHART_POINTS - 1)%nat).
      2:{ rewrite last_lookup, length_seq. symmetry.
          replace (pred MAX_CHART_POINTS) with (MAX_CHART_POINTS - 1)%nat by lia.
          apply lookup_seq. lia. }
      simpl. rewrite downsample_idx_last, last_lookup.
      replace (pred (length sorted)) with (length sorted - 1)%nat by lia.
      symmetry. apply list_lookup_lookup_total_lt. lia.
    + intros p Hp. eapply elem_of_sublist in Hp; [|exact Hsub].
      unfold sorted in Hp. rewrite Array_sort_Permutation in Hp.
      apply list_elem_of_fmap in Hp as (pt & -> & Hpt). by exists pt.
Qed.

Lemma series_data_always_sorted_witness :
  let history := [ {| ts := Fin 30; equity := Fin 101 |};
                   {| ts := Fin 10; equity := Fin 100 |} ] in
  StronglySorted (fun a b => js_le (p_time a) (p_time b) = true) (series_data history).
Proof.
  intros history. apply (series_data_always_sorted history).
  repeat constructor; discriminate.
Defined.

(** ** The chart without a container, and the series *)

(** X18. When the container is missing at mount, no chart is created, and
    from then on no update effect makes any call or changes any ref,
    whatever the snapshots. *)
Theorem EquityChart_without_container (accts0 : gmap string AccountData)
    (r : ChartRefs) (snaps : list (gmap string AccountData)) :
  chartRef r = None ->
  mountEffect false accts0 r = (r, [])
  /\ run_updates snaps (mountEffect false accts0 r).1
     = (r, replicate (length snaps) []).
Proof.
  intros Hchart. split; [done|]. simpl.
  induction snaps as [|accts snaps IH]; [done|].
  rewrite run_updates_cons. unfold updateEffect at 1 2 3. rewrite Hchart.
  cbn [fst snd]. by rewrite IH.
Qed.

Lemma EquityChart_without_container_witness :
  let acct := {| label := "Binance"; equity_history := [ {| ts := Fin 1; equity := Fin 2 |} ];
                 trade_events := [] |} in
  run_updates [ {[ "binance_only"%string := acct ]}; {[ "binance_only"%string := acct ]} ]
    (mountEffect false {[ "binance_only"%string := acct ]} EquityChart_init).1
  = (EquityChart_init, [ []; [] ]).
Proof.
  intros acct.
  exact (proj2 (EquityChart_without_container {[ "binance_only"%string := acct ]}
                  EquityChart_init
                  [ {[ "binance_only"%string := acct ]};
                    {[ "binance_only"%string := acct ]} ] eq_refl)).
Defined.

(** X19. An update makes no [setData] call on the series of a mode whose
    account is missing from the snapshot or has an empty equity_history:
    what that series showed before stays on the chart. *)
Theorem updateEffect_skips_empty_history (accts0 accts : gmap string AccountData)
    (r0 : ChartRefs) (mode : string) (series : nat) (d : list Point) :
  let r := (mountEffect true accts0 r0).1 in
  seriesRefs r !! mode = Some series ->
  (accts !! mode = None
   \/ exists acct, accts !! mode = Some acct /\ equity_history acct = []) ->
  SetData series d ∉ (updateEffect accts r).2.
Proof.
  intros r Hseries Hskip Hin.
  destruct (mountEffect_creates accts0 r0) as (_ & _ & _ & Hinj).
  apply updateEffect_setData in Hin as (mode' & acct' & _ & Hacct & Hs & Hne & _).
  assert (mode' = mode) as -> by (by eapply Hinj).
  destruct Hskip as [Hnone|(acct & Hsome & Hempty)]; by simplify_eq.
Qed.

Lemma updateEffect_skips_empty_history_witness :
  let acct h := {| label := "Binance"; equity_history := h; trade_events := [] |} in
  let pt := {| ts := Fin 1; equity := Fin 2 |} in
  let r := (mountEffect true {[ "binance_only"%string := acct [pt] ]} EquityChart_init).1 in
  SetData 0 [] ∉ (updateEffect {[ "binance_only"%string := acct [] ]} r).2.
Proof.
  intros acct pt r.
  apply (updateEffect_skips_empty_history {[ "binance_only"%string := acct [pt] ]}
           {[ "binance_only"%string := acct [] ]} EquityChart_init
           "binance_only"%string 0%nat []).
  - reflexivity.
  - right. exists (acct []). split; reflexivity.
Defined.

Lemma mountEffect_calls_no_range (accts : gmap string AccountData) (r : ChartRefs) :
  range_calls (mountEffect true accts r).2 = [].
Proof.
  unfold mountEffect, MODE_CONFIG. simpl.
  by destruct (accts !! "binance_only"%string), (accts !! "chainlink_only"%string),
    (accts !! "dual"%string).
Qed.

Lemma existsb_charted (accts : gmap string AccountData) (series : gmap string nat)
    (modes : list string) :
  (forall mode, mode ∈ modes -> is_Some (accts !! mode) -> is_Some (series !! mode)) ->
  existsb (fun mode =>
             match accts !! mode, series !! mode with
             | Some acct, Some _ => negb (Nat.eqb (length (equity_history acct)) 0)
             | _, _ => false
             end) modes
  = existsb (fun mode =>
               match accts !! mode with
               | Some acct => negb (Nat.eqb (length (equity_history acct)) 0)
               | None => false
               end) modes.
Proof.
  induction modes as [|mode modes IH]; intros Hall; [done|].
  simpl. rewrite IH by (intros m Hm; apply Hall; by right). f_equal.
  destruct (accts !! mode) as [acct|] eqn:Hacct; [|done].
  destruct (Hall mode) as [s ->]; [by left|by rewrite Hacct|done].
Qed.

Lemma has_charted_data_after_mount (accts : gmap string AccountData) (r : ChartRefs) :
  has_charted_data (seriesRefs (mountEffect true accts r).1) accts
  = existsb (fun mode =>
               match accts !! mode with
               | Some acct => negb (Nat.eqb (length (equity_history acct)) 0)
               | None => false
               end) MODE_CONFIG.
Proof.
  destruct (mountEffect_creates accts r) as (_ & _ & Hseries & _).
  unfold has_charted_data. apply existsb_charted.
  intros mode Hmode Hacct. by apply Hseries.
Qed.

(** X20. On the first render, the mount effect followed by the update
    effect on the same accounts, [fitContent] is called (once, and
    [initialRangeSet] is raised) exactly when some configured mode has an
    account with a non-empty equity_history; the mount effect itself never
    touches the range. *)
Theorem EquityChart_firstRender_range (accts : gmap string AccountData) :
  let has_history :=
    existsb (fun mode =>
               match accts !! mode with
               | Some acct => negb (Nat.eqb (length (equity_history acct)) 0)
               | None => false
               end) MODE_CONFIG in
  range_calls (EquityChart_firstRender accts).2
    = (if has_history then [FitContent] else [])
  /\ initialRangeSet (EquityChart_firstRender accts).1 = has_history
  /\ chartRef (EquityChart_firstRender accts).1 = Some TheChart.
Proof.
  intros has_history. unfold EquityChart_firstRender.
  destruct (mountEffect true accts EquityChart_init) as [r1 calls1] eqn:Hmount.
  destruct (updateEffect accts r1) as [r2 calls2] eqn:Hupdate.
  pose proof (mountEffect_creates accts EquityChart_init) as (Hchart & Hflag & _).
  pose proof (mountEffect_calls_no_range accts EquityChart_init) as Hnr.
  pose proof (has_charted_data_after_mount accts EquityChart_init) as Hhas.
  rewrite Hmount in Hchart, Hflag, Hnr, Hhas. cbn [fst snd] in *.
  pose proof (updateEffect_range_calls accts r1 Hchart) as Hrc.
  pose proof (updateEffect_flag accts r1 Hchart) as (Hc2 & _ & Hf2).
  rewrite Hupdate in Hrc, Hc2, Hf2. cbn [fst snd] in *.
  rewrite range_calls_app, Hnr, Hrc, Hf2, Hflag, Hhas. fold has_history.
  by destruct has_history.
Qed.

(** X25. The series are fixed when the chart is created: one series,
    distinct from the others, for each configured mode that has an account
    at that time, and no update effect adds, removes or replaces a series;
    an account that appears in a later snapshot never gets one. *)
Theorem EquityChart_series_fixed (accts0 : gmap string AccountData) (r0 : ChartRefs)
    (snaps : list (gmap string AccountData)) :
  let r := (mountEffect true accts0 r0).1 in
  seriesRefs (run_updates snaps r).1 = seriesRefs r
  /\ (forall mode, is_Some (seriesRefs (run_updates snaps r).1 !! mode) <->
        mode ∈ MODE_CONFIG /\ is_Some (accts0 !! mode))
  /\ (forall m1 m2 series,
        seriesRefs r !! m1 = Some series -> seriesRefs r !! m2 = Some series -> m1 = m2).
Proof.
  intros r.
  destruct (mountEffect_creates accts0 r0) as (Hchart & _ & Hseries & Hinj).
  destruct (run_updates_flag snaps r Hchart) as (_ & Hsame & _).
  split; [done|]. split; [|done].
  intros mode. rewrite Hsame. apply Hseries.
Qed.

Lemma EquityChart_series_fixed_witness :
  let acct := {| label := "Binance"; equity_history := []; trade_events := [] |} in
  let r := (mountEffect true {[ "binance_only"%string := acct ]} EquityChart_init).1 in
  seriesRefs (run_updates [ {[ "dual"%string := acct ]} ] r).1 !! "dual"%string = None.
Proof.
  intros acct r. apply eq_None_not_Some. intros Hsome.
  apply (proj1 (proj2 (EquityChart_series_fixed {[ "binance_only"%string := acct ]}
                         EquityChart_init [ {[ "dual"%string := acct ]} ]))
           "dual"%string) in Hsome as [_ [x Hx]].
  by vm_compute in Hx.
Defined.

(** ** More on the poller and the event sections *)

Lemma poll_all_snoc {A} (rounds : list (FetchOutcome (option A) * Z)) o now
    (h : HookState A) :
  poll_all (rounds ++ [(o, now)]) h = fetchState o now (poll_all rounds h).
Proof. unfold poll_all. by rewrite foldl_app. Qed.

(** X21. After any run of polls the error cell only tells about the last
    round: it is null exactly when that round succeeded, and otherwise
    holds the message of that round, whatever happened before. *)
Theorem poll_all_error_is_last_round {A} (rounds : list (FetchOutcome (option A) * Z))
    (o : FetchOutcome (option A)) (now : Z) (h : HookState A) :
  (error (poll_all (rounds ++ [(o, now)]) h) = None <-> is_Some (parsed_payload o))
  /\ error (poll_all (rounds ++ [(o, now)]) h) = error (fetchState o now h).
Proof.
  rewrite poll_all_snoc. generalize (poll_all rounds h). intros h'.
  destruct o as [[m|]|[] res_status [[m|]|data]]; simpl; split; try done;
    split; try done; by intros [? ?].
Qed.

(** X22. Starting from the initial hook, the page shows the dashboard on
    the payload of the last successful round as soon as there is one with
    a payload other than null, and keeps showing it while later rounds
    fail; before that it shows the loading screen.  The loading screen
    says "Connecting to bot..." exactly when there is no error or the
    error message is empty. *)
Theorem Dashboard_screen_after_polls {A} (rounds : list (FetchOutcome (option A) * Z)) :
  match last_success rounds with
  | Some (Some snapshot, _) =>
      exists hasError,
        Dashboard_screen (poll_all rounds useBotState_init)
        = DashboardView snapshot hasError
  | _ =>
      exists message,
        Dashboard_screen (poll_all rounds useBotState_init) = LoadingState message
  end
  /\ (forall h : HookState A, state h = None ->
        Dashboard_screen h = LoadingState "Connecting to bot..."%string
        <-> error h = None \/ error h = Some ""%string).
Proof.
  split.
  - pose proof (poll_all_shows_last_success rounds (@useBotState_init A)) as Hlast.
    unfold Dashboard_screen.
    destruct (last_success rounds) as [[[snapshot|] t]|].
    + destruct Hlast as [-> _]. by eexists.
    + destruct Hlast as [-> _]. by eexists.
    + destruct Hlast as [-> _]. by eexists.
  - intros h Hstate. unfold Dashboard_screen. rewrite Hstate.
    destruct (error h) as [msg|]; simpl; [|by split; [left|]].
    destruct (String.eqb_spec msg ""); simpl.
    + subst. split; [by right|done].
    + split; [done|]. by intros [|[= ?]].
Qed.

Lemma sort_insert_filter_time (t : string) (x : TradeEvent) (l : list TradeEvent) :
  List.filter (fun e => String.eqb (time e) t) (sort_insert by_time_desc x l)
  = List.filter (fun e => String.eqb (time e) t) (x :: l).
Proof.
  induction l as [|y l IH]; [done|]. cbn [sort_insert].
  destruct (stays_before by_time_desc x y) eqn:Hxy; [done|].
  cbn [List.filter]. rewrite IH. cbn [List.filter].
  destruct (String.eqb_spec (time x) t) as [Hx|Hx];
    destruct (String.eqb_spec (time y) t) as [Hy|Hy]; try done.
  exfalso. rewrite stays_before_by_time_desc in Hxy.
  rewrite Hx, Hy in Hxy. unfold String.leb in Hxy.
  by rewrite string_compare_refl in Hxy.
Qed.

(** X23. The sort of an event section is stable: the events that carry
    the same time string are listed in the order they had in the input. *)
Theorem EventSection_sort_stable (events : list TradeEvent) (t : string) :
  List.filter (fun e => String.eqb (time e) t) (Array_sort by_time_desc events)
  = List.filter (fun e => String.eqb (time e) t) events.
Proof.
  induction events as [|x events IH]; [done|].
  cbn [Array_sort foldr]. fold (Array_sort by_time_desc events).
  rewrite sort_insert_filter_time. cbn [List.filter]. by rewrite IH.
Qed.



(** ** Witnesses for the earlier lemmas *)

Lemma run_updates_v1_range_calls_witness :
  let pt := {| ts := Fin 1700000000; equity := Fin 1000 |} in
  let acct h := {| label := "Binance"; equity_history := h; trade_events := [] |} in
  let env := {| now_first := 1700000000000; now_second := 1700000000001;
                setVisibleRange_throws := true |} in
  let r0 := (mountEffect true {[ "binance_only"%string := acct [] ]} EquityChart_init).1 in
  range_calls [SetData 0 [to_point pt]; SetVisibleRange 1699989200 1700000000; FitContent]
  <> [].
Proof.
  intros pt acct env r0.
  apply (run_updates_v1_range_calls
           [ (env, {[ "binance_only"%string := acct [] ]});
             (env, {[ "binance_only"%string := acct [pt] ]}) ] r0 1%nat).
  - reflexivity.
  - by vm_compute.
  - split; reflexivity.
Defined.

Lemma safeToFixed_throws_witness :
  RangeError = RangeError /\ ~ (0 <= 101 <= 100).
Proof.
  apply (@safeToFixed_throws example_host (ANum (Fin 1)) 101 RangeError).
  reflexivity.
Defined.
